(** * The thread model of the Matrix JS SDK ([src/models/thread.ts])

    A shallow embedding of the [Thread] class: the process-wide capability
    flag, the namespaced relation-type values, the thread's reply counter,
    last-event pointer and private timeline, and the operations [addEvent],
    [addEvents], [initialiseThread], [onRedaction], [findEventById], [has]
    and [lastReply].

    Event objects are shared between the thread's timeline, the room's
    timelines and the thread's [lastEvent]/[rootEvent] pointers, and the
    code mutates them in place ([setThread], [delete ...unsigned...]); they
    therefore live in a heap and every container holds references. *)

From stdpp Require Import base option list strings gmap.
From Stdlib Require Import ZArith Lia.

Local Open Scope string_scope.
Local Open Scope list_scope.
Local Open Scope Z_scope.

Set Warnings "-register-all".

(** ** Capability flag *)

Module FeatureSupport.
(** [enum FeatureSupport { None = 0, Experimental = 1, Stable = 2 }] *)
Inductive t : Set := None | Experimental | Stable.

Definition value (s : t) : Z :=
  match s with None => 0 | Experimental => 1 | Stable => 2 end.

(** JavaScript truthiness of the enum's number: [!status] holds for
    [None] only. *)
Definition truthy (s : t) : bool := negb (value s =? 0).

(** [status === FeatureSupport.Stable] *)
Definition is_stable (s : t) : bool := value s =? 2.
End FeatureSupport.

Definition determineFeatureSupport (stable unstable : bool) : FeatureSupport.t :=
  if stable then FeatureSupport.Stable
  else if unstable then FeatureSupport.Experimental
  else FeatureSupport.None.

(** ** Namespaced values *)

Module ServerControlledNamespacedValue.
Record t : Set := mk { stable : string; unstable : string; preferUnstable : bool }.

(** [new ServerControlledNamespacedValue(stable, unstable)] *)
Definition new (s u : string) : t := mk s u false.

Definition setPreferUnstable (b : bool) (v : t) : t :=
  mk (stable v) (unstable v) b.

(** Modelled from the spec: the class is imported from [../NamespacedValue]
    and only constructed and configured in [thread.ts].  A value holds two
    identifier strings, stable and unstable; [name] is the one in use, and
    a value that was biased toward its unstable spelling yields the
    unstable one. *)
Definition name (v : t) : string :=
  if preferUnstable v then unstable v else stable v.
End ServerControlledNamespacedValue.

(** Modelled from the spec: the [RelationType] enum is declared outside
    [thread.ts]; these are the identifiers of the annotation (reaction) and
    replacement (edit) relations. *)
Module RelationType.
Definition Annotation : string := "m.annotation".
Definition Replace : string := "m.replace".
End RelationType.

(** ** Events *)

Definition ref := nat.

(** The wire payload of an event ([MatrixEvent.event]).  [relates_to] is
    [content["m.relates_to"]] as a pair of [rel_type] and [event_id], present
    when both are; [m_relations] is [unsigned["m.relations"]], of which only
    thread bundles are read here. *)
Inductive IEvent : Type := mkIEvent {
  event_id : string;
  sender : option string;
  relates_to : option (string * string);
  m_relations : gmap string (IEvent * Z)
}.

(** [IThreadBundledRelationship]: [latest_event] and [count]. *)
Definition IThreadBundledRelationship : Type := (IEvent * Z)%type.
Definition latest_event (m : IThreadBundledRelationship) : IEvent := fst m.
Definition count (m : IThreadBundledRelationship) : Z := snd m.

Module MatrixEvent.
(** Modelled from the spec: the event class is declared in [event.ts],
    outside [thread.ts].  An event object carries its wire payload, its
    local timestamp, its recorded thread-root id ([threadRootId], a getter
    of the class, kept as a field) and its thread association ([thread],
    the id of the thread, by which the room's thread collection is keyed;
    [None] when the event is associated with no thread). *)
Record t : Type := mk {
  event : IEvent;
  localTimestamp : Z;
  threadRootId : option string;
  thread : option string
}.

(** Modelled from the spec: the identifier and the sender of an event are
    those of its payload. *)
Definition getId (e : t) : string := event_id (event e).
Definition getSender (e : t) : option string := sender (event e).

(** Modelled from the spec: [isRelation(relType)] holds when the event
    bears a relation of that type. *)
Definition isRelation (relType : string) (e : t) : bool :=
  match relates_to (event e) with
  | Some (rt, _) => bool_decide (rt = relType)
  | None => false
  end.

(** Modelled from the spec: [setThread] sets the event's thread
    association, and clears it when given [null]. *)
Definition setThread (th : option string) (e : t) : t :=
  mk (event e) (localTimestamp e) (threadRootId e) th.

(** [delete e.event?.unsigned?.["m.relations"]?.[relType]] *)
Definition deleteRelation (relType : string) (e : t) : t :=
  let ev := event e in
  mk (mkIEvent (event_id ev) (sender ev) (relates_to ev)
               (delete relType (m_relations ev)))
     (localTimestamp e) (threadRootId e) (thread e).

(** [e.event = payload].  The payload is a value here: the object takes a
    copy, and a later change of one object's payload is not seen through
    the other. *)
Definition setEvent (payload : IEvent) (e : t) : t :=
  mk payload (localTimestamp e) (threadRootId e) (thread e).

(** Modelled from the spec: the server-aggregated relation metadata of a
    relation type, [unsigned["m.relations"][relType]], when present. *)
Definition getServerAggregatedRelation (relType : string) (e : t)
  : option IThreadBundledRelationship :=
  m_relations (event e) !! relType.
End MatrixEvent.

(** ** The thread, its room and its client *)

Module Thread.
(** The instance fields of [Thread].  [timelineSet] is the event list of
    the timeline set's live timeline ([this.events]), oldest first. *)
Record t : Type := mk {
  id : string;
  rootEvent : option ref;
  lastEvent : option ref;
  replyCount : Z;
  _currentUserParticipated : bool;
  timelineSet : list ref
}.
End Thread.

Module Room.
(** Modelled from the spec: the room is an external collaborator of which
    the thread uses a thread-id-keyed mapping ([threads]; the values are
    thread instances, of which only this one is modelled, so the keys are
    kept), the events of its live timeline and a set of aggregate
    timeline sets, each a list of events. *)
Record t : Type := mk {
  threads : gset string;
  liveTimeline : list ref;
  threadsTimelineSets : list (list ref)
}.
End Room.

Module MatrixClient.
(** [client.getUserId()] is [null] when nobody is logged in;
    [client.getEventMapper()] builds event objects from wire payloads. *)
Record t : Type := mk {
  getUserId : option string;
  getEventMapper : IEvent -> MatrixEvent.t
}.
End MatrixClient.

(** What the thread does to the outside: the notifications it emits and the
    calls to collaborators whose effect lies outside this model. *)
Inductive Effect : Type :=
| EmitUpdate                               (* this.emit(ThreadEvent.Update, this) *)
| EmitNewReply (event : ref)               (* this.emit(ThreadEvent.NewReply, this, event) *)
| EmitTimelineRefresh (set : list ref)     (* room.emit(RoomEvent.TimelineRefresh, room, set) *)
| DecryptEventIfNeeded (event : ref)       (* client.decryptEventIfNeeded(event, {}) *)
| FetchEditsWhereNeeded (event : ref)      (* this.fetchEditsWhereNeeded(event) *)
| AggregateParentEvent (event : ref)       (* timelineSet.relations.aggregateParentEvent(event) *)
| AggregateChildEvent (event : ref)        (* timelineSet.relations.aggregateChildEvent(event, timelineSet) *)
| SetEventMetadata (event : ref)           (* EventTimeline.setEventMetadata(event, roomState, false) *)
| AddLiveEvents (events : list ref).       (* room.addLiveEvents(events) *)

(** The static members of [Thread] and the module-level constants.
    [global_event] tells whether the host environment defines a global
    named [event] (a browser window does, Node does not): line 318 of
    [initialiseThread] reads that free identifier. *)
Record Statics : Type := mkStatics {
  hasServerSideSupport : FeatureSupport.t;
  hasServerSideListSupport : FeatureSupport.t;
  FILTER_RELATED_BY_SENDERS : ServerControlledNamespacedValue.t;
  FILTER_RELATED_BY_REL_TYPES : ServerControlledNamespacedValue.t;
  THREAD_RELATION_TYPE : ServerControlledNamespacedValue.t;
  global_event : bool
}.

Record World : Type := mkWorld {
  statics : Statics;
  heap : gmap ref MatrixEvent.t;
  this : Thread.t;
  room : Room.t;
  client : MatrixClient.t;
  effects : list Effect
}.

(** ** Field updates *)

Definition with_statics (f : Statics -> Statics) (w : World) : World :=
  mkWorld (f (statics w)) (heap w) (this w) (room w) (client w) (effects w).
Definition with_heap (f : gmap ref MatrixEvent.t -> gmap ref MatrixEvent.t) (w : World) : World :=
  mkWorld (statics w) (f (heap w)) (this w) (room w) (client w) (effects w).
Definition with_this (f : Thread.t -> Thread.t) (w : World) : World :=
  mkWorld (statics w) (heap w) (f (this w)) (room w) (client w) (effects w).
Definition with_room (f : Room.t -> Room.t) (w : World) : World :=
  mkWorld (statics w) (heap w) (this w) (f (room w)) (client w) (effects w).
Definition with_effects (f : list Effect -> list Effect) (w : World) : World :=
  mkWorld (statics w) (heap w) (this w) (room w) (client w) (f (effects w)).

Definition set_rootEvent (r : option ref) (t : Thread.t) : Thread.t :=
  Thread.mk (Thread.id t) r (Thread.lastEvent t) (Thread.replyCount t)
            (Thread._currentUserParticipated t) (Thread.timelineSet t).
Definition set_lastEvent (r : option ref) (t : Thread.t) : Thread.t :=
  Thread.mk (Thread.id t) (Thread.rootEvent t) r (Thread.replyCount t)
            (Thread._currentUserParticipated t) (Thread.timelineSet t).
Definition set_replyCount (n : Z) (t : Thread.t) : Thread.t :=
  Thread.mk (Thread.id t) (Thread.rootEvent t) (Thread.lastEvent t) n
            (Thread._currentUserParticipated t) (Thread.timelineSet t).
Definition set_currentUserParticipated (b : bool) (t : Thread.t) : Thread.t :=
  Thread.mk (Thread.id t) (Thread.rootEvent t) (Thread.lastEvent t) (Thread.replyCount t)
            b (Thread.timelineSet t).
Definition set_timelineSet (l : list ref) (t : Thread.t) : Thread.t :=
  Thread.mk (Thread.id t) (Thread.rootEvent t) (Thread.lastEvent t) (Thread.replyCount t)
            (Thread._currentUserParticipated t) l.

Definition set_threads (s : gset string) (r : Room.t) : Room.t :=
  Room.mk s (Room.liveTimeline r) (Room.threadsTimelineSets r).
Definition set_liveTimeline (l : list ref) (r : Room.t) : Room.t :=
  Room.mk (Room.threads r) l (Room.threadsTimelineSets r).
Definition set_threadsTimelineSets (l : list (list ref)) (r : Room.t) : Room.t :=
  Room.mk (Room.threads r) (Room.liveTimeline r) l.

(** ** A state monad with exceptions

    A method runs on the world and either returns or throws; what it wrote
    before throwing stays written. *)

Inductive Exn : Type :=
| TypeError
| ReferenceError
| Error (message : string)
| Rejected.                      (* the transport's promise was rejected *)

Definition M (A : Type) : Type := World -> World * (Exn + A).

#[global] Instance M_ret : MRet M := fun A a w => (w, inr a).
#[global] Instance M_bind : MBind M := fun A B k m w =>
  match m w with
  | (w', inr a) => k a w'
  | (w', inl e) => (w', inl e)
  end.

Definition throw {A : Type} (e : Exn) : M A := fun w => (w, inl e).
Definition gets {A : Type} (f : World -> A) : M A := fun w => (w, inr (f w)).
Definition modify (f : World -> World) : M unit := fun w => (f w, inr tt).
Definition skip : M unit := mret tt.
Definition when (b : bool) (m : M unit) : M unit := if b then m else skip.

(** The world a computation leaves behind, thrown or not. *)
Definition exec {A : Type} (m : M A) (w : World) : World := fst (m w).
Definition returns {A : Type} (m : M A) (w : World) : bool :=
  match snd (m w) with inr _ => true | inl _ => false end.

Fixpoint forEach {A : Type} (l : list A) (f : A -> M unit) : M unit :=
  match l with
  | [] => skip
  | x :: l' => f x ;; forEach l' f
  end.

Definition effect (e : Effect) : M unit := modify (with_effects (fun l => l ++ [e])).

(** Reading a property of an event object; a reference that designates no
    object is JavaScript's [undefined]. *)
Definition deref (r : ref) : M MatrixEvent.t := fun w =>
  match heap w !! r with
  | Some e => (w, inr e)
  | None => (w, inl TypeError)
  end.

(** In-place mutation of an event object. *)
Definition update (r : ref) (f : MatrixEvent.t -> MatrixEvent.t) : M unit :=
  modify (with_heap (alter f r)).

(** A new event object. *)
Definition alloc (e : MatrixEvent.t) : M ref := fun w =>
  let r := fresh (dom (heap w)) in (with_heap (insert r e) w, inr r).

(** ** Lookups *)

Definition has_id (h : gmap ref MatrixEvent.t) (eventId : string) (r : ref) : bool :=
  bool_decide (MatrixEvent.getId <$> h !! r = Some eventId).

(** [get events()] *)
Definition events (w : World) : list ref := Thread.timelineSet (this w).

(** Modelled from the spec: [timelineSet.findEventById] belongs to the
    timeline-set collaborator; it is the lookup by event id in the private
    timeline's index. *)
Definition timelineSet_findEventById (eventId : string) (w : World) : option ref :=
  List.find (has_id (heap w) eventId) (events w).

(** [findEventById]: the [lastEvent] is checked first, as it may come from a
    bundled relationship and be in no timeline. *)
Definition findEventById (eventId : string) (w : World) : option ref :=
  match Thread.lastEvent (this w) with
  | Some l =>
      if has_id (heap w) eventId l then Some l
      else timelineSet_findEventById eventId w
  | None => timelineSet_findEventById eventId w
  end.

(** [has]: [timelineSet.findEventById(eventId) instanceof MatrixEvent] *)
Definition has (eventId : string) (w : World) : bool :=
  bool_decide (is_Some (timelineSet_findEventById eventId w)).

(** [lastReply]: the newest timeline entry that matches, scanning from the
    end; by default everything matches. *)
Definition lastReply (matches : ref -> bool) (w : World) : option ref :=
  List.find matches (rev (events w)).

(** [get length()] *)
Definition get_length (w : World) : Z := Thread.replyCount (this w).

(** [get hasCurrentUserParticipated()] *)
Definition hasCurrentUserParticipated (w : World) : bool :=
  Thread._currentUserParticipated (this w).

(** [get replyToEvent()]: [this.lastEvent ?? this.lastReply()] *)
Definition replyToEvent (w : World) : option ref :=
  match Thread.lastEvent (this w) with
  | Some l => Some l
  | None => lastReply (fun _ => true) w
  end.

(** [a > b] where [b] may be [undefined]: the comparison is then false. *)
Definition gt_undefined (a : Z) (b : option Z) : bool :=
  match b with
  | Some b => b <? a
  | None => false
  end.

(** [event.getSender() === this.client.getUserId()]: the sender is a string
    or [undefined], the user id a string or [null], and [undefined] is not
    [null]. *)
Definition same_user (sender userId : option string) : bool :=
  match sender, userId with
  | Some s, Some u => bool_decide (s = u)
  | _, _ => false
  end.

(** ** Capability flag *)

(** [Thread.setServerSideSupport] *)
Definition setServerSideSupport (status : FeatureSupport.t) : M unit :=
  modify (with_statics (fun s =>
    let unstable v := if negb (FeatureSupport.is_stable status)
                      then ServerControlledNamespacedValue.setPreferUnstable true v else v in
    mkStatics status (hasServerSideListSupport s)
              (unstable (FILTER_RELATED_BY_SENDERS s))
              (unstable (FILTER_RELATED_BY_REL_TYPES s))
              (unstable (THREAD_RELATION_TYPE s))
              (global_event s))).

(** [Thread.setServerSideListSupport] *)
Definition setServerSideListSupport (status : FeatureSupport.t) : M unit :=
  modify (with_statics (fun s =>
    mkStatics (hasServerSideSupport s) status
              (FILTER_RELATED_BY_SENDERS s) (FILTER_RELATED_BY_REL_TYPES s)
              (THREAD_RELATION_TYPE s) (global_event s))).

(** [THREAD_RELATION_TYPE.name], the relation-type lookup *)
Definition THREAD_RELATION_TYPE_name (w : World) : string :=
  ServerControlledNamespacedValue.name (THREAD_RELATION_TYPE (statics w)).

(** ** Adding events *)

(** Modelled from the spec: [timelineSet.addEventToTimeline] belongs to the
    timeline-set collaborator; the timeline is append/prepend-capable and
    the event goes to its start or to its end.  (The timeline set's
    notification of the insertion reaches [onEcho]; what that listener does
    to the thread waits for the transport, and is an [onEcho] call of its
    own here.) *)
Definition timelineSet_addEventToTimeline (event : ref) (toStartOfTimeline : bool) : M unit :=
  modify (with_this (fun t =>
    set_timelineSet (if toStartOfTimeline then event :: Thread.timelineSet t
                     else Thread.timelineSet t ++ [event]) t)).

Definition addEventToTimeline (event : ref) (toStartOfTimeline : bool) : M unit :=
  e ← deref event;
  found ← gets (findEventById (MatrixEvent.getId e));
  when (negb (bool_decide (is_Some found)))
       (timelineSet_addEventToTimeline event toStartOfTimeline).

(** [this.lastReply()?.localTimestamp] *)
Definition lastReply_localTimestamp (w : World) : option Z :=
  r ← lastReply (fun _ => true) w;
  MatrixEvent.localTimestamp <$> heap w !! r.

(** [addEvent].  The first three branches decide whether the method goes on
    to the counter and the notification ([true]) or returns ([false]). *)
Definition addEvent (event : ref) (toStartOfTimeline : bool) (emit : bool) : M unit :=
  e ← deref event;
  id ← gets (fun w => Thread.id (this w));
  update event (MatrixEvent.setThread (Some id));;
  participated ← gets hasCurrentUserParticipated;
  userId ← gets (fun w => MatrixClient.getUserId (client w));
  when (negb participated && same_user (MatrixEvent.getSender e) userId)
       (modify (with_this (set_currentUserParticipated true)));;
  support ← gets (fun w => hasServerSideSupport (statics w));
  newest ← gets lastReply_localTimestamp;
  continue ←
    (if negb (FeatureSupport.truthy support) then
       addEventToTimeline event toStartOfTimeline;;
       effect (DecryptEventIfNeeded event);;
       mret true
     else if negb toStartOfTimeline
             && gt_undefined (MatrixEvent.localTimestamp e) newest then
       effect (FetchEditsWhereNeeded event);;
       addEventToTimeline event false;;
       mret true
     else if MatrixEvent.isRelation RelationType.Annotation e
             || MatrixEvent.isRelation RelationType.Replace e then
       effect (AggregateParentEvent event);;
       effect (AggregateChildEvent event);;
       mret false
     else mret true);
  when continue (
    rootEvent ← gets (fun w => Thread.rootEvent (this w));
    name ← gets THREAD_RELATION_TYPE_name;
    when ((negb (FeatureSupport.truthy support) || negb (bool_decide (is_Some rootEvent)))
          && MatrixEvent.isRelation name e)
         (modify (with_this (fun t => set_replyCount (Thread.replyCount t + 1) t)));;
    when emit (effect (EmitNewReply event))).

(** [addEvents] *)
Definition addEvents (events : list ref) (toStartOfTimeline : bool) : M unit :=
  forEach events (fun ev => addEvent ev toStartOfTimeline false);;
  effect EmitUpdate.

(** ** The room, seen from the thread *)

(** Modelled from the spec: [room.getTimelineForEvent(id)] followed by
    [getEvents().find(it => it.getId() === id)] locates the root event
    inside the room's live timeline, if resident. *)
Definition room_findEvent (eventId : string) (w : World) : option ref :=
  List.find (has_id (heap w) eventId) (Room.liveTimeline (room w)).

(** Modelled from the spec: an aggregate timeline set supports removal by
    id. *)
Definition removeEvent (h : gmap ref MatrixEvent.t) (eventId : string) (l : list ref) : list ref :=
  List.filter (fun r => negb (has_id h eventId r)) l.

(** Modelled from the spec: an aggregate timeline set supports insertion
    with a duplicate policy; under [DuplicateStrategy.Replace] an event
    whose id is present takes the place of the old one, any other event is
    appended. *)
Definition addLiveEvent_Replace (h : gmap ref MatrixEvent.t) (event : ref) (l : list ref) : list ref :=
  match MatrixEvent.getId <$> h !! event with
  | Some eventId =>
      if existsb (has_id h eventId) l
      then map (fun r => if has_id h eventId r then event else r) l
      else l ++ [event]
  | None => l
  end.

(** Modelled from the spec: the room's live timeline is a deduplicating
    container.  A live event whose identifier the timeline already holds is
    ignored; any other goes to the end of the timeline. *)
Definition addLiveEvent (h : gmap ref MatrixEvent.t) (live : list ref) (event : ref) : list ref :=
  match MatrixEvent.getId <$> h !! event with
  | Some eventId =>
      if existsb (has_id h eventId) live then live else live ++ [event]
  | None => live
  end.

(** Modelled from the spec: [room.addLiveEvents] reinserts the events, in
    the order given, as ordinary live events into the room. *)
Definition room_addLiveEvents (evs : list ref) : M unit :=
  effect (AddLiveEvents evs);;
  modify (fun w => with_room (fun r =>
    set_liveTimeline (foldl (addLiveEvent (heap w)) (Room.liveTimeline r) evs) r) w).

(** ** Redaction *)

Definition onRedaction (event : ref) : M unit :=
  e ← deref event;
  id ← gets (fun w => Thread.id (this w));
  when (bool_decide (MatrixEvent.threadRootId e = Some id)) (
    modify (with_this (fun t => set_replyCount (Thread.replyCount t - 1) t));;
    replyCount ← gets (fun w => Thread.replyCount (this w));
    when (replyCount =? 0) (
      modify (with_room (fun r => set_threads (Room.threads r ∖ {[id]}) r));;
      roomEvent ← gets (room_findEvent id);
      match roomEvent with
      | Some roomEvent =>
          name ← gets THREAD_RELATION_TYPE_name;
          update roomEvent (MatrixEvent.setThread None);;
          update roomEvent (MatrixEvent.deleteRelation name);;
          modify (with_this (set_rootEvent (Some roomEvent)));;
          threadEvents ← gets events;
          forEach threadEvents (fun threadEvent =>
            update threadEvent (MatrixEvent.deleteRelation name);;
            update threadEvent (MatrixEvent.setThread None));;
          modify (fun w => with_room (fun r =>
            set_threadsTimelineSets
              (map (removeEvent (heap w) id) (Room.threadsTimelineSets r)) r) w);;
          threadEvents ← gets events;
          room_addLiveEvents threadEvents;;
          timeline ← gets (fun w => Room.liveTimeline (room w));
          effect (EmitTimelineRefresh timeline)
      | None => skip
      end);;
    effect EmitUpdate).

(** ** Initialisation *)

(** What the transport answers to the context request: the promise is
    rejected, or it resolves to a response that may lack its [event]. *)
Inductive ContextResponse : Type :=
| RequestFailed
| Response (event : option IEvent).

(** [loadEvent].  The mapper is a collaborator; the object it returns is
    taken to be a new one (a mapper that hands back an object the room
    already holds is not covered). *)
Definition loadEvent (res : ContextResponse) : M ref :=
  match res with
  | RequestFailed => throw Rejected
  | Response None =>
      throw (Error "'event' not in '/context' result - homeserver too old?")
  | Response (Some ev) =>
      mapper ← gets (fun w => MatrixClient.getEventMapper (client w));
      mappedEvent ← alloc (mapper ev);
      effect (FetchEditsWhereNeeded mappedEvent);;
      mret mappedEvent
  end.

(** [initialiseThread], run to completion on the transport's answer. *)
Definition initialiseThread (res : ContextResponse) : M unit :=
  mapper ← gets (fun w => MatrixClient.getEventMapper (client w));
  mappedEvent ← loadEvent res;
  effect (SetEventMetadata mappedEvent);;
  id ← gets (fun w => Thread.id (this w));
  update mappedEvent (MatrixEvent.setThread (Some id));;
  name ← gets THREAD_RELATION_TYPE_name;
  mapped ← deref mappedEvent;
  match MatrixEvent.getServerAggregatedRelation name mapped with
  | Some metadata =>
      modify (with_this (set_replyCount (count metadata)));;
      latestEvent ← alloc (mapper (latest_event metadata));
      effect (FetchEditsWhereNeeded latestEvent);;
      modify (with_this (set_lastEvent (Some latestEvent)));;
      modify (with_this (set_rootEvent (Some mappedEvent)));;
      (* console.error("initialiseThread", this.id, event, metadata):
         [event] is not bound in the method *)
      defined ← gets (fun w => global_event (statics w));
      when (negb defined) (throw ReferenceError);;
      modify (fun w => with_room (fun r =>
        set_threadsTimelineSets
          (map (fun set => addLiveEvent_Replace (heap w) mappedEvent
                             (removeEvent (heap w) id set))
               (Room.threadsTimelineSets r)) r) w);;
      roomEvent ← gets (room_findEvent id);
      match roomEvent with
      | Some roomEvent =>
          update roomEvent (MatrixEvent.setEvent (MatrixEvent.event mapped));;
          update roomEvent (MatrixEvent.setThread (Some id))
      | None => skip
      end;;
      (* timeline.getTimelineSet(): [timeline] is undefined when the root
         event is in no timeline of the room *)
      match roomEvent with
      | Some _ =>
          timeline ← gets (fun w => Room.liveTimeline (room w));
          effect (EmitTimelineRefresh timeline)
      | None => throw TypeError
      end;;
      threadTimeline ← gets events;
      effect (EmitTimelineRefresh threadTimeline);;
      effect EmitUpdate
  | None => skip
  end.

(** ** The other listeners *)

(** [onBeforeRedaction] only logs. *)
Definition onBeforeRedaction (event redaction : ref) : M unit := skip.

(** [onEcho], run to completion on the transport's answer to the context
    request of the initialisation it starts.  [this.lastEvent === event]
    compares objects. *)
Definition onEcho (event : ref) (res : ContextResponse) : M unit :=
  e ← deref event;
  id ← gets (fun w => Thread.id (this w));
  lastEvent ← gets (fun w => Thread.lastEvent (this w));
  name ← gets THREAD_RELATION_TYPE_name;
  when (bool_decide (MatrixEvent.threadRootId e = Some id)
        && negb (bool_decide (lastEvent = Some event))
        && MatrixEvent.isRelation name e) (
    initialiseThread res;;
    effect (EmitNewReply event)).

(** [addReceipt] *)
Definition addReceipt (event : ref) (synthetic : bool) : M unit :=
  throw (Error "Unsupported function on the thread model").

(** ** Sequences of calls *)

Inductive Call : Type :=
| SetServerSideSupport (status : FeatureSupport.t)
| AddEvent (event : ref) (toStartOfTimeline emit : bool)
| AddEvents (events : list ref) (toStartOfTimeline : bool)
| InitialiseThread (res : ContextResponse)
| OnRedaction (event : ref)
| OnBeforeRedaction (event redaction : ref)
| OnEcho (event : ref) (res : ContextResponse)
| AddReceipt (event : ref) (synthetic : bool).

Definition call (c : Call) : M unit :=
  match c with
  | SetServerSideSupport status => setServerSideSupport status
  | AddEvent event toStartOfTimeline emit => addEvent event toStartOfTimeline emit
  | AddEvents events toStartOfTimeline => addEvents events toStartOfTimeline
  | InitialiseThread res => initialiseThread res
  | OnRedaction event => onRedaction event
  | OnBeforeRedaction event redaction => onBeforeRedaction event redaction
  | OnEcho event res => onEcho event res
  | AddReceipt event synthetic => addReceipt event synthetic
  end.

(** The calls of a sequence run one after the other; a call that throws
    does not keep the next one from running. *)
Definition run (cs : list Call) (w : World) : World :=
  foldl (fun w c => exec (call c) w) w cs.

(** ** A new thread *)

Definition initial_statics (global_event : bool) : Statics :=
  mkStatics FeatureSupport.None FeatureSupport.None
            (ServerControlledNamespacedValue.new "related_by_senders" "io.element.relation_senders")
            (ServerControlledNamespacedValue.new "related_by_rel_types" "io.element.relation_types")
            (ServerControlledNamespacedValue.new "m.thread" "io.element.thread")
            global_event.

(** The fields of a thread as its constructor leaves them. *)
Definition new_Thread (id : string) (rootEvent : option ref) : Thread.t :=
  Thread.mk id rootEvent None 0 false [].

(** The synchronous part of the constructor; the initialisation it starts
    is a later [initialiseThread] call. *)
Definition constructor (id : string) (rootEvent : option ref) : M unit :=
  modify (with_this (fun _ => new_Thread id rootEvent));;
  match rootEvent with
  | Some r => update r (MatrixEvent.setThread (Some id))
  | None => skip
  end.

(** ** Views of the private timeline *)

(** The identifiers of the private timeline's events, oldest first. *)
Definition timeline_ids (w : World) : list string :=
  omap (fun r => MatrixEvent.getId <$> heap w !! r) (events w).

(** The world after an insertion at either end of the private timeline. *)
Definition inserted (event : ref) (toStartOfTimeline : bool) (w : World) : World :=
  with_this (fun t =>
    set_timelineSet (if toStartOfTimeline then event :: Thread.timelineSet t
                     else Thread.timelineSet t ++ [event]) t) w.

(** [this.lastEvent?.localTimestamp] *)
Definition lastEvent_localTimestamp (w : World) : option Z :=
  l ← Thread.lastEvent (this w);
  MatrixEvent.localTimestamp <$> heap w !! l.

(** The identifiers of the events of the room's live timeline. *)
Definition room_ids (w : World) : list string :=
  omap (fun r => MatrixEvent.getId <$> heap w !! r) (Room.liveTimeline (room w)).

(** ** Invariants of computations *)

(** [m] keeps [P], whether it returns or throws. *)
Definition preserves (P : World -> Prop) {A : Type} (m : M A) : Prop :=
  forall w, P w -> P (exec m w).

(** ** A small room

    A root message, a reply by another user, a reaction to that reply by
    the local user, and three more replies; the thread is new and the root
    message is in the room's live timeline.  The client's mapper stamps the
    events it builds with the local time [8]. *)

Definition mk_event (id : string) (sender : option string)
    (rel : option (string * string)) (ts : Z) (root : option string) : MatrixEvent.t :=
  MatrixEvent.mk (mkIEvent id sender rel ∅) ts root None.

Definition sample_client : MatrixClient.t :=
  MatrixClient.mk (Some "@me:example.org") (fun ev => MatrixEvent.mk ev 8 None None).

Definition sample_heap : gmap ref MatrixEvent.t :=
  list_to_map
    [ (0%nat, mk_event "$root" (Some "@alice:example.org") None 1 None);
      (1%nat, mk_event "$reply1" (Some "@bob:example.org")
                       (Some ("m.thread", "$root")) 5 (Some "$root"));
      (2%nat, mk_event "$reaction" (Some "@me:example.org")
                       (Some ("m.annotation", "$reply1")) 7 (Some "$root"));
      (3%nat, mk_event "$reply2" (Some "@me:example.org")
                       (Some ("m.thread", "$root")) 10 (Some "$root"));
      (4%nat, mk_event "$reply3" (Some "@bob:example.org")
                       (Some ("m.thread", "$root")) 6 (Some "$root"));
      (5%nat, mk_event "$latest" (Some "@bob:example.org")
                       (Some ("m.thread", "$root")) 9 (Some "$root")) ].

Definition sample_world : World :=
  mkWorld (initial_statics true) sample_heap (new_Thread "$root" (Some 0%nat))
          (Room.mk {["$root"]} [0%nat] [[0%nat]]) sample_client [].

(** The same room once the server is known to aggregate threads. *)
Definition stable_world : World :=
  exec (setServerSideSupport FeatureSupport.Stable) sample_world.

(** A context response for the root message that bundles a thread of three
    replies, the latest being [$latest]. *)
Definition sample_response : ContextResponse :=
  Response (Some (mkIEvent "$root" (Some "@alice:example.org") None
                           {[ "m.thread" := (mkIEvent "$latest" (Some "@bob:example.org")
                                                      (Some ("m.thread", "$root")) ∅, 3) ]})).

(** A context response for the root message without bundled relations. *)
Definition bare_response_event : IEvent :=
  mkIEvent "$root" (Some "@alice:example.org") None ∅.

(** ** Statements to refute *)

(** The relation-type lookup follows the last [setServerSideSupport] call of
    a sequence that starts with the module's initial values: unstable after
    [Experimental], stable after [Stable]. *)
Definition lookup_follows_last_call : Prop :=
  forall (w : World) (before : list FeatureSupport.t) (last : FeatureSupport.t),
    statics w = initial_statics (global_event (statics w)) ->
    let w' := run (map SetServerSideSupport (before ++ [last])) w in
    (last = FeatureSupport.Experimental ->
     THREAD_RELATION_TYPE_name w' = ServerControlledNamespacedValue.unstable (THREAD_RELATION_TYPE (statics w')))
    /\ (last = FeatureSupport.Stable ->
        THREAD_RELATION_TYPE_name w' = ServerControlledNamespacedValue.stable (THREAD_RELATION_TYPE (statics w'))).

(** Two worlds show the same private timeline: the same references, the same
    [lastEvent], and event objects with the same identifiers and
    timestamps. *)
Definition same_timeline (w1 w2 : World) : Prop :=
  events w1 = events w2
  /\ Thread.lastEvent (this w1) = Thread.lastEvent (this w2)
  /\ forall r : ref,
       MatrixEvent.getId <$> heap w1 !! r = MatrixEvent.getId <$> heap w2 !! r
       /\ MatrixEvent.localTimestamp <$> heap w1 !! r
          = MatrixEvent.localTimestamp <$> heap w2 !! r.

(** With server support [Stable] and a known root event, a live event is
    inserted exactly when it is newer than the [lastEvent], and the timeline
    keeps its length when it is not. *)
Definition live_insert_iff_newer_than_lastEvent : Prop :=
  forall (w : World) (event : ref) (emit : bool) (e : MatrixEvent.t),
    hasServerSideSupport (statics w) = FeatureSupport.Stable ->
    is_Some (Thread.rootEvent (this w)) ->
    heap w !! event = Some e ->
    let w' := exec (addEvent event false emit) w in
    let newer := gt_undefined (MatrixEvent.localTimestamp e) (lastEvent_localTimestamp w) in
    (events w' = events w ++ [event] <-> newer = true)
    /\ (newer = false -> List.length (events w') = List.length (events w)).

(** With server support [Stable], an event that is neither an annotation
    nor a replacement and is not known yet is inserted at the start by
    [addEvent(event, true)]. *)
Definition backfill_always_accepted : Prop :=
  forall (w : World) (event : ref) (emit : bool) (e : MatrixEvent.t),
    hasServerSideSupport (statics w) = FeatureSupport.Stable ->
    heap w !! event = Some e ->
    MatrixEvent.isRelation RelationType.Annotation e = false ->
    MatrixEvent.isRelation RelationType.Replace e = false ->
    findEventById (MatrixEvent.getId e) w = None ->
    events (exec (addEvent event true emit) w) = event :: events w.

(** An annotation or replacement of an event of the thread is never
    inserted: [addEvent] hands it to the relation index and does nothing
    else to the timeline, the counter or the listeners. *)
Definition relations_never_inserted : Prop :=
  forall (w : World) (event : ref) (toStartOfTimeline emit : bool)
         (e : MatrixEvent.t) (relType target : string),
    heap w !! event = Some e ->
    relates_to (MatrixEvent.event e) = Some (relType, target) ->
    relType = RelationType.Annotation \/ relType = RelationType.Replace ->
    target ∈ timeline_ids w ->
    let w' := exec (addEvent event toStartOfTimeline emit) w in
    events w' = events w
    /\ effects w' = effects w ++ [AggregateParentEvent event; AggregateChildEvent event]
    /\ Thread.replyCount (this w') = Thread.replyCount (this w).

(** The thread once its first reply came in without server support, the
    server was then found to aggregate threads, and the thread was
    initialised from the bundled metadata: the timeline holds [$reply1]
    (timestamp 5) and the [lastEvent] is [$latest] (timestamp 8). *)
Definition reconciled_world : World :=
  run [AddEvent 1%nat false true;
       SetServerSideSupport FeatureSupport.Stable;
       InitialiseThread sample_response] sample_world.

(** The thread initialised from the bundled metadata alone: the timeline is
    empty and the [lastEvent] is [$latest] (timestamp 8). *)
Definition initialised_world : World :=
  exec (initialiseThread sample_response) stable_world.

(** ** Dissolution *)

(** What [onRedaction] does to an event of a thread it dissolves. *)
Definition disassociate (name : string) (e : MatrixEvent.t) : MatrixEvent.t :=
  MatrixEvent.setThread None (MatrixEvent.deleteRelation name e).

(** An event that bears no thread association and no bundled relation of
    the given type. *)
Definition disassociated (name : string) (e : MatrixEvent.t) : Prop :=
  MatrixEvent.thread e = None
  /\ MatrixEvent.getServerAggregatedRelation name e = None.

(** ** Further views of a world *)

(** The notifications among the effects. *)
Definition is_EmitUpdate (e : Effect) : bool :=
  match e with EmitUpdate => true | _ => false end.

Definition is_EmitNewReply (e : Effect) : bool :=
  match e with EmitNewReply _ => true | _ => false end.

(** The local timestamps of the private timeline's events, oldest first. *)
Definition timeline_timestamps (w : World) : list Z :=
  omap (fun r => MatrixEvent.localTimestamp <$> heap w !! r) (events w).

(** Strictly increasing, oldest first. *)
Fixpoint increasing (l : list Z) : Prop :=
  match l with
  | [] => True
  | x :: l' => Forall (fun y => x < y) l' /\ increasing l'
  end.

(** ** The closed form of [addEvent]

    The world [addEvent] leaves behind, written without the monad; the
    lemma [addEvent_run] proves that the method computes it. *)

(** Whether the call counts the event as a reply. *)
Definition counted (e : MatrixEvent.t) (w : World) : bool :=
  (negb (FeatureSupport.truthy (hasServerSideSupport (statics w)))
   || negb (bool_decide (is_Some (Thread.rootEvent (this w)))))
  && MatrixEvent.isRelation (THREAD_RELATION_TYPE_name w) e.

(** The end of the method: the counter and the notification. *)
Definition count_and_emit (event : ref) (emit count : bool) (w : World) : World :=
  let w := if count
           then with_this (fun t => set_replyCount (Thread.replyCount t + 1) t) w
           else w in
  if emit then with_effects (fun l => l ++ [EmitNewReply event]) w else w.

(** The insertion guarded by [findEventById]. *)
Definition insert_unless (known : bool) (event : ref) (toStartOfTimeline : bool)
    (w : World) : World :=
  if known then w else inserted event toStartOfTimeline w.

Definition addEvent_world (event : ref) (toStartOfTimeline emit : bool)
    (e : MatrixEvent.t) (w : World) : World :=
  let w1 := with_heap (alter (MatrixEvent.setThread (Some (Thread.id (this w)))) event) w in
  let w2 := if negb (hasCurrentUserParticipated w)
               && same_user (MatrixEvent.getSender e) (MatrixClient.getUserId (client w))
            then with_this (set_currentUserParticipated true) w1 else w1 in
  let known := bool_decide (is_Some (findEventById (MatrixEvent.getId e) w)) in
  if negb (FeatureSupport.truthy (hasServerSideSupport (statics w))) then
    count_and_emit event emit (counted e w)
      (with_effects (fun l => l ++ [DecryptEventIfNeeded event])
         (insert_unless known event toStartOfTimeline w2))
  else if negb toStartOfTimeline
          && gt_undefined (MatrixEvent.localTimestamp e) (lastReply_localTimestamp w) then
    count_and_emit event emit (counted e w)
      (insert_unless known event false
         (with_effects (fun l => l ++ [FetchEditsWhereNeeded event]) w2))
  else if MatrixEvent.isRelation RelationType.Annotation e
          || MatrixEvent.isRelation RelationType.Replace e then
    with_effects (fun l => l ++ [AggregateChildEvent event])
      (with_effects (fun l => l ++ [AggregateParentEvent event]) w2)
  else count_and_emit event emit (counted e w) w2.

(** The calls that may insert into the private timeline. *)
Definition adds_events (c : Call) : bool :=
  match c with
  | AddEvent _ _ _ | AddEvents _ _ => true
  | _ => false
  end.

(** The small room with a live timeline that does not hold the root
    message (the root is older than what the room has loaded), after the
    first reply came in. *)
Definition rootless_world : World :=
  exec (addEvent 1%nat false true)
       (mkWorld (initial_statics true) sample_heap (new_Thread "$root" None)
                (Room.mk {["$root"]} [1%nat] []) sample_client []).

(** ** The closed form of [initialiseThread]

    The worlds [initialiseThread] goes through when the mapped root event
    bundles thread metadata; the lemma [initialiseThread_metadata_run]
    proves that the method computes them. *)

(** The world once the counter and the two pointers are written: the mapped
    root event and the mapped latest event are new objects. *)
Definition initialiseThread_written (ev : IEvent) (metadata : IThreadBundledRelationship)
    (w : World) : World :=
  let mapper := MatrixClient.getEventMapper (client w) in
  let r0 := fresh (dom (heap w)) in
  let h0 := alter (MatrixEvent.setThread (Some (Thread.id (this w)))) r0
                  (<[r0 := mapper ev]> (heap w)) in
  let r1 := fresh (dom h0) in
  mkWorld (statics w)
          (<[r1 := mapper (latest_event metadata)]> h0)
          (set_rootEvent (Some r0)
             (set_lastEvent (Some r1) (set_replyCount (count metadata) (this w))))
          (room w) (client w)
          (effects w ++ [FetchEditsWhereNeeded r0; SetEventMetadata r0;
                         FetchEditsWhereNeeded r1]).

(** The world once every aggregate timeline set has the mapped root event
    in place of the old one. *)
Definition initialiseThread_replaced (ev : IEvent) (metadata : IThreadBundledRelationship)
    (w : World) : World :=
  let w1 := initialiseThread_written ev metadata w in
  with_room (fun r =>
    set_threadsTimelineSets
      (map (fun set => addLiveEvent_Replace (heap w1) (fresh (dom (heap w)))
                         (removeEvent (heap w1) (Thread.id (this w)) set))
           (Room.threadsTimelineSets r)) r) w1.

(** The world the method returns with: the root event of the room's live
    timeline carries the fetched payload. *)
Definition initialiseThread_spliced (ev : IEvent) (metadata : IThreadBundledRelationship)
    (roomEvent : ref) (w : World) : World :=
  let w2 := initialiseThread_replaced ev metadata w in
  let id := Thread.id (this w) in
  let payload := MatrixEvent.event (MatrixClient.getEventMapper (client w) ev) in
  mkWorld (statics w2)
          (alter (MatrixEvent.setThread (Some id)) roomEvent
             (alter (MatrixEvent.setEvent payload) roomEvent (heap w2)))
          (this w2) (room w2) (client w2)
          (effects w2 ++ [EmitTimelineRefresh (Room.liveTimeline (room w));
                          EmitTimelineRefresh (events w);
                          EmitUpdate]).

(** ** The constructor with its guard *)

(** [new Thread(id, rootEvent, opts)]: without [opts.room] the constructor
    throws before it writes anything; with it, it sets the fields and
    associates the root event.  (The listeners it registers are the calls of
    a sequence here, and the initialisation it starts is a later
    [initialiseThread] call.) *)
Definition construct (id : string) (rootEvent : option ref) (opts_room : bool) : M unit :=
  when (negb opts_room)
       (throw (Error "element-web#22141: A thread requires a room in order to function"));;
  constructor id rootEvent.

(** The calls that start an initialisation. *)
Definition initialises (c : Call) : bool :=
  match c with
  | InitialiseThread _ | OnEcho _ _ => true
  | _ => false
  end.

(** * Properties *)

(** ** Running the monad *)

Lemma exec_bind {A B : Type} (m : M A) (k : A -> M B) (w : World) :
  exec (m ≫= k) w =
  match m w with
  | (w', inr a) => exec (k a) w'
  | (w', inl _) => w'
  end.
Proof. unfold exec, mbind, M_bind. destruct (m w) as [w' [e|a]]; reflexivity. Qed.

Lemma exec_modify (f : World -> World) (w : World) : exec (modify f) w = f w.
Proof. reflexivity. Qed.

(** One step of a computation, by the shape of its head. *)

Lemma bind_ret {A B : Type} (a : A) (k : A -> M B) (w : World) :
  (mret a ≫= k) w = k a w.
Proof. reflexivity. Qed.

Lemma bind_skip {B : Type} (k : unit -> M B) (w : World) :
  (skip ≫= k) w = k tt w.
Proof. reflexivity. Qed.

Lemma bind_gets {A B : Type} (f : World -> A) (k : A -> M B) (w : World) :
  (gets f ≫= k) w = k (f w) w.
Proof. reflexivity. Qed.

Lemma bind_modify {B : Type} (f : World -> World) (k : unit -> M B) (w : World) :
  (modify f ≫= k) w = k tt (f w).
Proof. reflexivity. Qed.

Lemma bind_effect {B : Type} (e : Effect) (k : unit -> M B) (w : World) :
  (effect e ≫= k) w = k tt (with_effects (fun l => l ++ [e]) w).
Proof. reflexivity. Qed.

Lemma bind_update {B : Type} (r : ref) (f : MatrixEvent.t -> MatrixEvent.t)
    (k : unit -> M B) (w : World) :
  (update r f ≫= k) w = k tt (with_heap (alter f r) w).
Proof. reflexivity. Qed.

Lemma bind_alloc {B : Type} (e : MatrixEvent.t) (k : ref -> M B) (w : World) :
  (alloc e ≫= k) w =
  k (fresh (dom (heap w))) (with_heap (insert (fresh (dom (heap w))) e) w).
Proof. reflexivity. Qed.

Lemma bind_throw {A B : Type} (e : Exn) (k : A -> M B) (w : World) :
  (throw e ≫= k) w = (w, inl e).
Proof. reflexivity. Qed.

Lemma bind_deref {B : Type} (r : ref) (k : MatrixEvent.t -> M B) (w : World) (e : MatrixEvent.t) :
  heap w !! r = Some e -> (deref r ≫= k) w = k e w.
Proof. intros H. unfold mbind, M_bind, deref. rewrite H. reflexivity. Qed.

Lemma bind_deref_None {B : Type} (r : ref) (k : MatrixEvent.t -> M B) (w : World) :
  heap w !! r = None -> (deref r ≫= k) w = (w, inl TypeError).
Proof. intros H. unfold mbind, M_bind, deref. rewrite H. reflexivity. Qed.

Lemma bind_assoc {A B C : Type} (m : M A) (k : A -> M B) (k' : B -> M C) (w : World) :
  ((m ≫= k) ≫= k') w = (m ≫= fun a => k a ≫= k') w.
Proof.
  unfold mbind, M_bind. destruct (m w) as [w1 [e|a]]; reflexivity.
Qed.

Lemma bind_when_true {B : Type} (m : M unit) (k : unit -> M B) (w : World) :
  (when true m ≫= k) w = (m ≫= k) w.
Proof. reflexivity. Qed.

Lemma bind_when_false {B : Type} (m : M unit) (k : unit -> M B) (w : World) :
  (when false m ≫= k) w = k tt w.
Proof. reflexivity. Qed.

Lemma run_ret {A : Type} (a : A) (w : World) : (mret a : M A) w = (w, inr a).
Proof. reflexivity. Qed.

Lemma run_modify (f : World -> World) (w : World) : modify f w = (f w, inr tt).
Proof. reflexivity. Qed.

Lemma run_effect (e : Effect) (w : World) :
  effect e w = (with_effects (fun l => l ++ [e]) w, inr tt).
Proof. reflexivity. Qed.

Lemma run_when_true (m : M unit) (w : World) : when true m w = m w.
Proof. reflexivity. Qed.

Lemma run_when_false (m : M unit) (w : World) : when false m w = (w, inr tt).
Proof. reflexivity. Qed.

Create Rewrite HintDb mrun.

#[local] Hint Rewrite @bind_assoc @bind_ret @bind_skip @bind_gets @bind_modify
  @bind_effect @bind_update @bind_alloc @bind_throw @bind_when_true @bind_when_false
  @run_ret run_modify run_effect run_when_true run_when_false : mrun.

(** ** Invariants of computations *)

Section Preservation.
Context (P : World -> Prop).

Lemma preserves_bind {A B : Type} (m : M A) (k : A -> M B) :
  preserves P m -> (forall a, preserves P (k a)) -> preserves P (m ≫= k).
Proof.
  intros Hm Hk w Hw. rewrite exec_bind.
  specialize (Hm w Hw). unfold exec in Hm.
  destruct (m w) as [w' [e|a]]; simpl in Hm; [assumption|].
  apply Hk. assumption.
Qed.

Lemma preserves_ret {A : Type} (a : A) : preserves P (mret a).
Proof. intros w Hw. exact Hw. Qed.

Lemma preserves_skip : preserves P skip.
Proof. intros w Hw. exact Hw. Qed.

Lemma preserves_throw {A : Type} (e : Exn) : preserves P (@throw A e).
Proof. intros w Hw. exact Hw. Qed.

Lemma preserves_gets {A : Type} (f : World -> A) : preserves P (gets f).
Proof. intros w Hw. exact Hw. Qed.

Lemma preserves_deref (r : ref) : preserves P (deref r).
Proof.
  intros w Hw. unfold exec, deref. destruct (heap w !! r); exact Hw.
Qed.

Lemma preserves_modify (f : World -> World) :
  (forall w, P w -> P (f w)) -> preserves P (modify f).
Proof. intros Hf w Hw. apply Hf, Hw. Qed.

Lemma preserves_when (b : bool) (m : M unit) :
  preserves P m -> preserves P (when b m).
Proof. intros Hm. destruct b; [exact Hm | apply preserves_skip]. Qed.

Lemma preserves_forEach {A : Type} (l : list A) (f : A -> M unit) :
  (forall a, preserves P (f a)) -> preserves P (forEach l f).
Proof.
  intros Hf. induction l as [|x l IH]; simpl.
  - apply preserves_skip.
  - apply preserves_bind; [apply Hf | intros _; exact IH].
Qed.

Lemma preserves_run (cs : list Call) :
  (forall c, preserves P (call c)) -> forall w, P w -> P (run cs w).
Proof.
  intros Hc. unfold run.
  induction cs as [|c cs IH]; intros w Hw; simpl; [exact Hw|].
  apply IH, Hc, Hw.
Qed.
End Preservation.

(** Walks through a method, leaving one goal for each write. *)
Ltac preserve_step :=
  lazymatch goal with
  | |- preserves _ (mbind _ _) => apply preserves_bind; [| intros ?]
  | |- preserves _ (mret _) => apply preserves_ret
  | |- preserves _ skip => apply preserves_skip
  | |- preserves _ (throw _) => apply preserves_throw
  | |- preserves _ (gets _) => apply preserves_gets
  | |- preserves _ (deref _) => apply preserves_deref
  | |- preserves _ (when _ _) => apply preserves_when
  | |- preserves _ (forEach _ _) => apply preserves_forEach; intros ?
  | |- preserves _ (modify _) => apply preserves_modify; intros ? ?
  | |- preserves _ (effect _) => unfold effect
  | |- preserves _ (update _ _) => unfold update
  | |- preserves _ (match ?x with _ => _ end) => destruct x
  end.

Ltac preserve := repeat preserve_step.

(** ** The participation flag *)

Lemma participated_alloc (e : MatrixEvent.t) :
  preserves (fun w => hasCurrentUserParticipated w = true) (alloc e).
Proof. intros w Hw. exact Hw. Qed.

Lemma participated_addEvent (event : ref) (toStartOfTimeline emit : bool) :
  preserves (fun w => hasCurrentUserParticipated w = true)
            (addEvent event toStartOfTimeline emit).
Proof.
  unfold addEvent, addEventToTimeline, timelineSet_addEventToTimeline.
  preserve; try assumption; reflexivity.
Qed.

Lemma participated_initialiseThread (res : ContextResponse) :
  preserves (fun w => hasCurrentUserParticipated w = true) (initialiseThread res).
Proof.
  unfold initialiseThread, loadEvent.
  preserve; try assumption; apply participated_alloc.
Qed.

Lemma participated_call (c : Call) :
  preserves (fun w => hasCurrentUserParticipated w = true) (call c).
Proof.
  destruct c; simpl.
  - unfold setServerSideSupport. preserve. assumption.
  - apply participated_addEvent.
  - unfold addEvents. preserve; try assumption. apply participated_addEvent.
  - apply participated_initialiseThread.
  - unfold onRedaction, room_addLiveEvents. preserve; assumption.
  - apply preserves_skip.
  - unfold onEcho. preserve; try assumption. apply participated_initialiseThread.
  - apply preserves_throw.
Qed.

(** A step that is not the whole method: what is left runs on the new
    world. *)
Ltac mrun := autorewrite with mrun.

(** Reading a component of a world that was written to. *)
Ltac wsimpl :=
  cbn [statics heap this room client effects
       with_statics with_heap with_this with_room with_effects].

Lemma participated_addEvent_false (w : World) (event : ref)
    (toStartOfTimeline emit : bool) (e : MatrixEvent.t) :
  heap w !! event = Some e ->
  hasCurrentUserParticipated w = false ->
  hasCurrentUserParticipated (exec (addEvent event toStartOfTimeline emit) w)
  = same_user (MatrixEvent.getSender e) (MatrixClient.getUserId (client w)).
Proof.
  intros He Hp.
  unfold exec, addEvent. rewrite (bind_deref _ _ _ _ He). mrun.
  change (hasCurrentUserParticipated (with_heap _ w))
    with (hasCurrentUserParticipated w).
  change (client (with_heap _ w)) with (client w).
  rewrite Hp. cbn [negb andb].
  destruct (same_user _ _) eqn:Hs; mrun.
  - match goal with
    | |- hasCurrentUserParticipated (?m ?w1).1 = true =>
        apply (fun H : preserves (fun w => hasCurrentUserParticipated w = true) m =>
                 H w1 eq_refl)
    end.
    unfold addEventToTimeline, timelineSet_addEventToTimeline.
    preserve; try assumption; reflexivity.
  - match goal with
    | |- hasCurrentUserParticipated (?m ?w1).1 = false =>
        apply (fun H : preserves (fun w => hasCurrentUserParticipated w = false) m =>
                 H w1 Hp)
    end.
    unfold addEventToTimeline, timelineSet_addEventToTimeline.
    preserve; assumption.
Qed.

(** C9: the participation flag becomes true on an [addEvent] whose event
    was sent by the local user, stays false on an [addEvent] of anybody
    else's event, and once true stays true through every sequence of calls,
    redactions included. *)
Theorem currentUserParticipated_monotonic :
  (forall (w : World) (event : ref) (toStartOfTimeline emit : bool)
          (e : MatrixEvent.t) (user : string),
      heap w !! event = Some e ->
      hasCurrentUserParticipated w = false ->
      MatrixEvent.getSender e = Some user ->
      MatrixClient.getUserId (client w) = Some user ->
      hasCurrentUserParticipated (exec (addEvent event toStartOfTimeline emit) w) = true)
  /\ (forall (w : World) (event : ref) (toStartOfTimeline emit : bool)
             (e : MatrixEvent.t),
      heap w !! event = Some e ->
      hasCurrentUserParticipated w = false ->
      MatrixEvent.getSender e <> MatrixClient.getUserId (client w) ->
      hasCurrentUserParticipated (exec (addEvent event toStartOfTimeline emit) w) = false)
  /\ (forall (cs : list Call) (w : World),
      hasCurrentUserParticipated w = true ->
      hasCurrentUserParticipated (run cs w) = true).
Proof.
  split; [|split].
  - intros w event ts em e user He Hp Hs Hu.
    rewrite (participated_addEvent_false _ _ _ _ _ He Hp), Hs, Hu.
    simpl. apply bool_decide_eq_true. reflexivity.
  - intros w event ts em e He Hp Hne.
    rewrite (participated_addEvent_false _ _ _ _ _ He Hp).
    unfold same_user.
    destruct (MatrixEvent.getSender e) as [s|]; [|reflexivity].
    destruct (MatrixClient.getUserId (client w)) as [u|]; [|reflexivity].
    apply bool_decide_eq_false. congruence.
  - intros cs.
    apply (preserves_run (fun w => hasCurrentUserParticipated w = true)).
    apply participated_call.
Qed.

Lemma currentUserParticipated_monotonic_witness :
  hasCurrentUserParticipated
    (exec (addEvent 1%nat false true) sample_world) = false
  /\ hasCurrentUserParticipated
       (exec (addEvent 3%nat false true) sample_world) = true
  /\ hasCurrentUserParticipated
       (run [OnRedaction 3%nat; OnRedaction 1%nat; InitialiseThread sample_response]
            (exec (addEvent 3%nat false true) sample_world)) = true.
Proof.
  destruct currentUserParticipated_monotonic as (Hset & Hkeep & Hmono).
  split; [|split].
  - eapply Hkeep; [reflexivity | reflexivity | discriminate].
  - eapply Hset; reflexivity.
  - apply Hmono. eapply Hset; reflexivity.
Defined.

(** ** The capability flag and the relation-type lookup *)

Lemma run_app (cs cs' : list Call) (w : World) :
  run (cs ++ cs') w = run cs' (run cs w).
Proof. unfold run. apply foldl_app. Qed.

Lemma setServerSideSupport_THREAD_RELATION_TYPE (status : FeatureSupport.t) (w : World) :
  THREAD_RELATION_TYPE (statics (exec (setServerSideSupport status) w)) =
  ServerControlledNamespacedValue.mk (ServerControlledNamespacedValue.stable (THREAD_RELATION_TYPE (statics w)))
        (ServerControlledNamespacedValue.unstable (THREAD_RELATION_TYPE (statics w)))
        (ServerControlledNamespacedValue.preferUnstable (THREAD_RELATION_TYPE (statics w))
         || negb (FeatureSupport.is_stable status)).
Proof.
  unfold exec, setServerSideSupport. simpl.
  destruct (THREAD_RELATION_TYPE (statics w)) as [s u p].
  destruct (FeatureSupport.is_stable status), p; reflexivity.
Qed.

Lemma run_setServerSideSupport_THREAD_RELATION_TYPE (l : list FeatureSupport.t) (w : World) :
  THREAD_RELATION_TYPE (statics (run (map SetServerSideSupport l) w)) =
  ServerControlledNamespacedValue.mk (ServerControlledNamespacedValue.stable (THREAD_RELATION_TYPE (statics w)))
        (ServerControlledNamespacedValue.unstable (THREAD_RELATION_TYPE (statics w)))
        (ServerControlledNamespacedValue.preferUnstable (THREAD_RELATION_TYPE (statics w))
         || existsb (fun s => negb (FeatureSupport.is_stable s)) l).
Proof.
  revert w. induction l as [|s l IH]; intros w.
  - simpl. rewrite orb_false_r.
    destruct (THREAD_RELATION_TYPE (statics w)); reflexivity.
  - change (run (map SetServerSideSupport (s :: l)) w)
      with (run (map SetServerSideSupport l) (exec (setServerSideSupport s) w)).
    rewrite IH, setServerSideSupport_THREAD_RELATION_TYPE. simpl.
    rewrite orb_assoc. reflexivity.
Qed.

(** C6, as the code has it: the bias toward the unstable identifier is set
    by every call whose status is not [Stable] and is never taken back, so
    after a sequence of calls the lookup yields the unstable identifier
    when the value was biased before or some call of the sequence, the last
    or an earlier one, had a status other than [Stable]; it yields the
    stable identifier otherwise. *)
Theorem lookup_after_setServerSideSupport
    (w : World) (before : list FeatureSupport.t) (last : FeatureSupport.t) :
  THREAD_RELATION_TYPE_name (run (map SetServerSideSupport (before ++ [last])) w) =
  if ServerControlledNamespacedValue.preferUnstable (THREAD_RELATION_TYPE (statics w))
     || existsb (fun s => negb (FeatureSupport.is_stable s)) before
     || negb (FeatureSupport.is_stable last)
  then ServerControlledNamespacedValue.unstable (THREAD_RELATION_TYPE (statics w))
  else ServerControlledNamespacedValue.stable (THREAD_RELATION_TYPE (statics w)).
Proof.
  unfold THREAD_RELATION_TYPE_name.
  rewrite run_setServerSideSupport_THREAD_RELATION_TYPE.
  rewrite existsb_app. simpl. rewrite orb_false_r, orb_assoc.
  unfold ServerControlledNamespacedValue.name. simpl. reflexivity.
Qed.

(** C6, as stated, fails: [Experimental] then [Stable] leaves the unstable
    identifier in use. *)
Lemma lookup_follows_last_call_fails : ~ lookup_follows_last_call.
Proof.
  intros H.
  destruct (H sample_world [FeatureSupport.Experimental] FeatureSupport.Stable eq_refl)
    as [_ Hstable].
  specialize (Hstable eq_refl). vm_compute in Hstable. discriminate Hstable.
Qed.

(** ** Initialisation without bundled metadata *)

Lemma lookup_fresh (h : gmap ref MatrixEvent.t) : h !! fresh (dom h) = None.
Proof. apply not_elem_of_dom, is_fresh. Qed.

(** C7: when the context request yields the root event and the mapped
    event bundles no thread relation, [initialiseThread] returns without
    throwing, the thread's fields ([replyCount], [lastEvent], [rootEvent],
    the private timeline, and the rest) are as before, and so is every
    event object that existed. *)
Theorem initialiseThread_without_metadata (w : World) (ev : IEvent) :
  MatrixEvent.getServerAggregatedRelation
    (THREAD_RELATION_TYPE_name w) (MatrixClient.getEventMapper (client w) ev) = None ->
  let w' := exec (initialiseThread (Response (Some ev))) w in
  returns (initialiseThread (Response (Some ev))) w = true
  /\ this w' = this w
  /\ (forall (r : ref) (e : MatrixEvent.t), heap w !! r = Some e -> heap w' !! r = Some e).
Proof.
  intros Hmeta.
  set (mapped := MatrixClient.getEventMapper (client w) ev) in *.
  set (r0 := fresh (dom (heap w))).
  set (e0 := MatrixEvent.setThread (Some (Thread.id (this w))) mapped).
  assert (Hrun : initialiseThread (Response (Some ev)) w =
                 (with_heap (alter (MatrixEvent.setThread (Some (Thread.id (this w)))) r0)
                    (with_effects (fun l => l ++ [SetEventMetadata r0])
                       (with_effects (fun l => l ++ [FetchEditsWhereNeeded r0])
                          (with_heap (insert r0 mapped) w))),
                  inr tt)).
  { unfold initialiseThread, loadEvent. mrun.
    cbn [heap with_heap with_effects client]. fold r0 mapped.
    erewrite bind_deref.
    2:{ cbn [heap with_heap with_effects]. rewrite lookup_alter_eq, lookup_insert_eq.
        reflexivity. }
    change (THREAD_RELATION_TYPE_name (with_heap _ _)) with (THREAD_RELATION_TYPE_name w).
    cbn [fmap option_fmap option_map].
    unfold MatrixEvent.getServerAggregatedRelation in *.
    cbn [MatrixEvent.event MatrixEvent.setThread].
    rewrite Hmeta. wsimpl. reflexivity. }
  unfold returns, exec. rewrite Hrun. cbn [fst snd].
  split; [reflexivity | split; [reflexivity |]].
  intros r e Hr. cbn [heap with_heap with_effects].
  assert (r <> r0) as Hne.
  { intros ->. unfold r0 in Hr. rewrite lookup_fresh in Hr. discriminate. }
  rewrite lookup_alter_ne, lookup_insert_ne by congruence. exact Hr.
Qed.

Lemma initialiseThread_without_metadata_witness :
  returns (initialiseThread (Response (Some bare_response_event))) stable_world = true
  /\ this (exec (initialiseThread (Response (Some bare_response_event))) stable_world)
     = this stable_world.
Proof.
  destruct (initialiseThread_without_metadata stable_world bare_response_event)
    as (Hret & Hthis & _).
  - reflexivity.
  - split; [exact Hret | exact Hthis].
Defined.

(** ** Lookups by identifier *)

Lemma has_id_true (h : gmap ref MatrixEvent.t) (eventId : string) (r : ref) :
  has_id h eventId r = true <->
  exists e, h !! r = Some e /\ MatrixEvent.getId e = eventId.
Proof.
  unfold has_id. rewrite bool_decide_eq_true.
  destruct (h !! r) as [e|]; simpl; split.
  - intros [= <-]. eauto.
  - intros (e' & [= <-] & <-). reflexivity.
  - discriminate.
  - intros (e' & [=] & _).
Qed.

Lemma find_has_id_None (h : gmap ref MatrixEvent.t) (eventId : string) (l : list ref) :
  List.find (has_id h eventId) l = None <->
  eventId ∉ omap (fun r => MatrixEvent.getId <$> h !! r) l.
Proof.
  induction l as [|r l IH]; simpl.
  - split; [intros _; apply not_elem_of_nil | reflexivity].
  - destruct (has_id h eventId r) eqn:Hr.
    + apply has_id_true in Hr as (e & -> & <-). simpl.
      split; [discriminate | intros H; exfalso; apply H; left].
    + assert (MatrixEvent.getId <$> h !! r <> Some eventId) as Hne.
      { unfold has_id in Hr. apply bool_decide_eq_false in Hr. exact Hr. }
      rewrite IH. destruct (h !! r) as [e|]; simpl in *; [|reflexivity].
      rewrite not_elem_of_cons. split; [|intros [_ H]; exact H].
      intros H. split; [congruence | exact H].
Qed.

Lemma timelineSet_findEventById_None (eventId : string) (w : World) :
  timelineSet_findEventById eventId w = None <-> eventId ∉ timeline_ids w.
Proof. apply find_has_id_None. Qed.

(** C10: when the thread's [lastEvent] is an event whose identifier occurs
    nowhere in the private timeline, [findEventById] on that identifier
    returns the [lastEvent] while [has] on it is false. *)
Theorem findEventById_and_has_disagree (w : World) (l : ref) (e : MatrixEvent.t) :
  Thread.lastEvent (this w) = Some l ->
  heap w !! l = Some e ->
  MatrixEvent.getId e ∉ timeline_ids w ->
  findEventById (MatrixEvent.getId e) w = Some l
  /\ has (MatrixEvent.getId e) w = false.
Proof.
  intros Hl He Hout. split.
  - unfold findEventById. rewrite Hl.
    assert (has_id (heap w) (MatrixEvent.getId e) l = true) as ->; [|reflexivity].
    apply has_id_true. eauto.
  - unfold has. apply timelineSet_findEventById_None in Hout. rewrite Hout.
    apply bool_decide_eq_false. intros [x Hx]. discriminate Hx.
Qed.

(** The disagreement as it arises: the bundled latest event of a thread
    that was initialised from the server's metadata. *)
Lemma findEventById_and_has_disagree_witness :
  let w := exec (initialiseThread sample_response) stable_world in
  findEventById "$latest" w = Some 7%nat /\ has "$latest" w = false.
Proof.
  simpl.
  apply (findEventById_and_has_disagree
           (exec (initialiseThread sample_response) stable_world) 7%nat
           (MatrixEvent.mk (mkIEvent "$latest" (Some "@bob:example.org")
                                     (Some ("m.thread", "$root")) ∅) 8 None None)).
  - reflexivity.
  - reflexivity.
  - vm_compute. apply not_elem_of_nil.
Defined.

(** ** The reply counter *)

(** C2 does not hold of the code: [onRedaction] decrements the counter for
    every redacted event of the thread, whether [addEvent] counted it or
    not.  With server support and a known root event a reply is not
    counted, and without server support a reaction is not counted; the
    redaction of either takes the counter of a new thread from [0] to
    [-1]. *)
Theorem replyCount_negative :
  Thread.replyCount (this (run [AddEvent 1%nat false true] stable_world)) = 0
  /\ Thread.replyCount
       (this (run [AddEvent 1%nat false true; OnRedaction 1%nat] stable_world)) = -1
  /\ Thread.replyCount (this (run [AddEvent 2%nat false true] sample_world)) = 0
  /\ Thread.replyCount
       (this (run [AddEvent 2%nat false true; OnRedaction 2%nat] sample_world)) = -1.
Proof. vm_compute. repeat split; reflexivity. Qed.

(** ** What [addEvent] does to the private timeline *)

Lemma find_ext_eq {A : Type} (f g : A -> bool) (l : list A) :
  (forall x, f x = g x) -> List.find f l = List.find g l.
Proof.
  intros H. induction l as [|x l IH]; simpl; [reflexivity|].
  rewrite H, IH. reflexivity.
Qed.

Lemma same_timeline_has_id (w1 w2 : World) (eventId : string) (r : ref) :
  same_timeline w1 w2 -> has_id (heap w1) eventId r = has_id (heap w2) eventId r.
Proof. intros (_ & _ & H). unfold has_id. destruct (H r) as [-> _]. reflexivity. Qed.

Lemma same_timeline_findEventById (w1 w2 : World) (eventId : string) :
  same_timeline w1 w2 -> findEventById eventId w1 = findEventById eventId w2.
Proof.
  intros H. pose proof H as (Hev & Hl & _).
  unfold findEventById, timelineSet_findEventById. rewrite Hl, Hev.
  rewrite (find_ext_eq (has_id (heap w1) eventId) (has_id (heap w2) eventId))
    by (intros r; apply same_timeline_has_id, H).
  destruct (Thread.lastEvent (this w2)) as [l|]; [|reflexivity].
  rewrite (same_timeline_has_id w1 w2 eventId l H). reflexivity.
Qed.

Lemma same_timeline_lastReply_localTimestamp (w1 w2 : World) :
  same_timeline w1 w2 -> lastReply_localTimestamp w1 = lastReply_localTimestamp w2.
Proof.
  intros (Hev & _ & H). unfold lastReply_localTimestamp, lastReply. rewrite Hev.
  destruct (List.find _ _) as [r|]; simpl; [|reflexivity].
  destruct (H r) as [_ ->]. reflexivity.
Qed.

Lemma same_timeline_setThread (w : World) (r : ref) (t : option string) :
  same_timeline (with_heap (alter (MatrixEvent.setThread t) r) w) w.
Proof.
  split; [reflexivity | split; [reflexivity |]].
  intros r'. wsimpl. rewrite lookup_alter.
  case_decide; [subst r'|]; destruct (heap w !! r); split; reflexivity.
Qed.

Lemma same_timeline_participated (w1 w2 : World) (b : bool) :
  same_timeline w1 w2 -> same_timeline (with_this (set_currentUserParticipated b) w1) w2.
Proof. intros H. exact H. Qed.

Lemma same_timeline_effects (w1 w2 : World) (f : list Effect -> list Effect) :
  same_timeline w1 w2 -> same_timeline (with_effects f w1) w2.
Proof. intros H. exact H. Qed.

Create HintDb timeline.

#[local] Hint Resolve same_timeline_setThread same_timeline_participated
  same_timeline_effects : timeline.

(** The world in which [addEvent] takes its branch shows the timeline the
    call started with. *)
Ltac same_view :=
  repeat match goal with
  | |- context [findEventById ?i ?w1] =>
      lazymatch w1 with
      | with_heap _ _ => idtac | with_this _ _ => idtac | with_effects _ _ => idtac
      end;
      rewrite (same_timeline_findEventById w1 _ i ltac:(eauto 10 with timeline))
  | |- context [lastReply_localTimestamp ?w1] =>
      lazymatch w1 with
      | with_heap _ _ => idtac | with_this _ _ => idtac | with_effects _ _ => idtac
      end;
      rewrite (same_timeline_lastReply_localTimestamp w1 _ ltac:(eauto 10 with timeline))
  end.

Lemma run_addEventToTimeline (event : ref) (toStartOfTimeline : bool)
    (w : World) (e : MatrixEvent.t) :
  heap w !! event = Some e ->
  addEventToTimeline event toStartOfTimeline w =
  (if bool_decide (is_Some (findEventById (MatrixEvent.getId e) w))
   then w else inserted event toStartOfTimeline w, inr tt).
Proof.
  intros He. unfold addEventToTimeline, timelineSet_addEventToTimeline.
  rewrite (bind_deref _ _ _ _ He). mrun.
  destruct (bool_decide _); reflexivity.
Qed.

Lemma bind_addEventToTimeline {B : Type} (event : ref) (toStartOfTimeline : bool)
    (k : unit -> M B) (w : World) (e : MatrixEvent.t) :
  heap w !! event = Some e ->
  (addEventToTimeline event toStartOfTimeline ≫= k) w =
  k tt (if bool_decide (is_Some (findEventById (MatrixEvent.getId e) w))
        then w else inserted event toStartOfTimeline w).
Proof.
  intros He. unfold addEventToTimeline, timelineSet_addEventToTimeline.
  mrun. rewrite (bind_deref _ _ _ _ He). mrun.
  destruct (bool_decide _); reflexivity.
Qed.

(** Runs [addEvent] on an event object [e] up to its three-way branch. *)
Ltac addEvent_start He :=
  unfold exec, addEvent; rewrite (bind_deref _ _ _ _ He); mrun.

(** Runs what is left of a method, by cases on its conditions. *)
Ltac mcases :=
  repeat (mrun; wsimpl;
          try match goal with
              | |- context [when ?b _] =>
                  lazymatch b with
                  | true => fail
                  | false => fail
                  | _ => destruct b eqn:?
                  end
              end).

Lemma getId_setThread (t : option string) (e : MatrixEvent.t) :
  MatrixEvent.getId (MatrixEvent.setThread t e) = MatrixEvent.getId e.
Proof. reflexivity. Qed.

Lemma lookup_setThread (w : World) (event : ref) (e : MatrixEvent.t) (t : option string) :
  heap w !! event = Some e ->
  heap (with_heap (alter (MatrixEvent.setThread t) event) w) !! event
  = Some (MatrixEvent.setThread t e).
Proof. intros He. wsimpl. rewrite lookup_alter_eq, He. reflexivity. Qed.

(** C3, as the code has it: with server support [Stable] and a known root
    event, [addEvent(event, false)] appends the event exactly when its
    timestamp is strictly newer than that of the last entry of the private
    timeline ([lastReply()], not the [lastEvent]; never when the timeline
    is empty) and [findEventById] knows no event of its identifier;
    otherwise the timeline is as before. *)
Theorem addEvent_live_stable (w : World) (event : ref) (emit : bool) (e : MatrixEvent.t) :
  hasServerSideSupport (statics w) = FeatureSupport.Stable ->
  is_Some (Thread.rootEvent (this w)) ->
  heap w !! event = Some e ->
  events (exec (addEvent event false emit) w) =
  if gt_undefined (MatrixEvent.localTimestamp e) (lastReply_localTimestamp w)
     && negb (bool_decide (is_Some (findEventById (MatrixEvent.getId e) w)))
  then events w ++ [event]
  else events w.
Proof.
  intros Hs _ He. addEvent_start He.
  destruct (negb _ && same_user _ _); mrun; wsimpl; rewrite Hs;
    cbn [FeatureSupport.truthy FeatureSupport.value negb andb orb Z.eqb];
    same_view;
    (destruct (gt_undefined _ _); cbn [andb];
     [ mrun;
       erewrite bind_addEventToTimeline by (apply lookup_setThread, He);
       rewrite getId_setThread;
       same_view;
       destruct (bool_decide (is_Some (findEventById _ w))); mcases; reflexivity
     | destruct (_ || _); mcases; reflexivity ]).
Qed.

Lemma addEvent_live_stable_witness :
  events (exec (addEvent 4%nat false true) reconciled_world) = [1%nat; 4%nat]
  /\ events (exec (addEvent 3%nat false true) initialised_world) = [].
Proof.
  split.
  - rewrite (addEvent_live_stable reconciled_world 4%nat true
               (mk_event "$reply3" (Some "@bob:example.org")
                         (Some ("m.thread", "$root")) 6 (Some "$root")));
      [reflexivity | reflexivity | eexists; reflexivity | reflexivity].
  - rewrite (addEvent_live_stable initialised_world 3%nat true
               (mk_event "$reply2" (Some "@me:example.org")
                         (Some ("m.thread", "$root")) 10 (Some "$root")));
      [reflexivity | reflexivity | eexists; reflexivity | reflexivity].
Defined.

(** C3, as stated, fails both ways.  [$reply2] (timestamp 10) is newer than
    the [lastEvent] (timestamp 8) and is not inserted, the timeline being
    empty; [$reply3] (timestamp 6) is not newer than the [lastEvent] and is
    inserted, being newer than the timeline's last entry (timestamp 5). *)
Lemma live_insert_iff_newer_than_lastEvent_fails :
  ~ live_insert_iff_newer_than_lastEvent.
Proof.
  intros H.
  destruct (H reconciled_world 4%nat true
              (mk_event "$reply3" (Some "@bob:example.org")
                        (Some ("m.thread", "$root")) 6 (Some "$root"))
              eq_refl (ex_intro _ 6%nat eq_refl) eq_refl) as [_ Hlen].
  specialize (Hlen eq_refl). vm_compute in Hlen. discriminate Hlen.
Qed.

Lemma newer_than_lastEvent_not_inserted :
  gt_undefined 10 (lastEvent_localTimestamp initialised_world) = true
  /\ events (exec (addEvent 3%nat false true) initialised_world)
     = events initialised_world.
Proof. split; reflexivity. Qed.

(** The live copy of the bundled latest event (timestamp 9) is newer than
    the timeline's last entry (timestamp 5) and is not inserted either:
    [findEventById] answers with the [lastEvent]. *)
Lemma newer_than_lastReply_not_inserted :
  gt_undefined 9 (lastReply_localTimestamp reconciled_world) = true
  /\ events (exec (addEvent 5%nat false true) reconciled_world)
     = events reconciled_world.
Proof. split; reflexivity. Qed.

(** ** Backfill with server support *)

(** C4, as the code has it: with server support [Stable], [addEvent(event,
    true)] of an event that is neither an annotation nor a replacement
    leaves the private timeline as it was; the event is not inserted. *)
Theorem addEvent_backfill_stable (w : World) (event : ref) (emit : bool) (e : MatrixEvent.t) :
  hasServerSideSupport (statics w) = FeatureSupport.Stable ->
  heap w !! event = Some e ->
  MatrixEvent.isRelation RelationType.Annotation e = false ->
  MatrixEvent.isRelation RelationType.Replace e = false ->
  events (exec (addEvent event true emit) w) = events w.
Proof.
  intros Hs He Ha Hr. addEvent_start He.
  destruct (negb _ && same_user _ _); mrun; wsimpl; rewrite Hs, Ha, Hr;
    cbn [FeatureSupport.truthy FeatureSupport.value negb andb orb Z.eqb];
    mcases; reflexivity.
Qed.

Lemma addEvent_backfill_stable_witness :
  events (exec (addEvent 1%nat true true) stable_world) = [].
Proof.
  apply (addEvent_backfill_stable stable_world 1%nat true
           (mk_event "$reply1" (Some "@bob:example.org")
                     (Some ("m.thread", "$root")) 5 (Some "$root")));
    reflexivity.
Defined.

(** C4, as stated, fails: the first reply, unknown to the thread, is not in
    the timeline after [addEvent(event, true)]. *)
Lemma backfill_always_accepted_fails : ~ backfill_always_accepted.
Proof.
  intros H.
  specialize (H stable_world 1%nat true
                (mk_event "$reply1" (Some "@bob:example.org")
                          (Some ("m.thread", "$root")) 5 (Some "$root"))
                eq_refl eq_refl eq_refl eq_refl eq_refl).
  vm_compute in H. discriminate H.
Qed.

(** ** Annotations and replacements *)

(** C5, as the code has it: when the server supports threads
    ([Experimental] or [Stable]) and the event either goes to the start of
    the timeline or is not strictly newer than the timeline's last entry,
    [addEvent] of an annotation or replacement returns after handing the
    event to the relation index: the timeline and the counter are as
    before and nothing else is emitted.  The event's thread association is
    set all the same.  (Without server support, and for a live event newer
    than the last entry, the event goes through the timeline insertion
    instead.) *)
Theorem addEvent_relation_aggregated
    (w : World) (event : ref) (toStartOfTimeline emit : bool) (e : MatrixEvent.t) :
  heap w !! event = Some e ->
  MatrixEvent.isRelation RelationType.Annotation e
  || MatrixEvent.isRelation RelationType.Replace e = true ->
  FeatureSupport.truthy (hasServerSideSupport (statics w)) = true ->
  toStartOfTimeline
  || negb (gt_undefined (MatrixEvent.localTimestamp e) (lastReply_localTimestamp w)) = true ->
  let w' := exec (addEvent event toStartOfTimeline emit) w in
  returns (addEvent event toStartOfTimeline emit) w = true
  /\ events w' = events w
  /\ effects w' = effects w ++ [AggregateParentEvent event; AggregateChildEvent event]
  /\ Thread.replyCount (this w') = Thread.replyCount (this w)
  /\ heap w' = alter (MatrixEvent.setThread (Some (Thread.id (this w)))) event (heap w).
Proof.
  intros He Hrel Hs Hold.
  assert (negb toStartOfTimeline
          && gt_undefined (MatrixEvent.localTimestamp e) (lastReply_localTimestamp w)
          = false) as Hbranch.
  { destruct toStartOfTimeline; [reflexivity|].
    simpl in Hold. apply negb_true_iff in Hold. exact Hold. }
  unfold returns. addEvent_start He.
  destruct (negb _ && same_user _ _); mrun; wsimpl; rewrite Hs; cbn [negb];
    same_view; rewrite Hbranch, Hrel; mrun; cbn [fst snd]; wsimpl;
    rewrite <- app_assoc; repeat split; reflexivity.
Qed.

Lemma addEvent_relation_aggregated_witness :
  let w := exec (addEvent 2%nat true true) reconciled_world in
  events w = [1%nat]
  /\ effects w = effects reconciled_world
                 ++ [AggregateParentEvent 2%nat; AggregateChildEvent 2%nat].
Proof.
  destruct (addEvent_relation_aggregated reconciled_world 2%nat true true
              (mk_event "$reaction" (Some "@me:example.org")
                        (Some ("m.annotation", "$reply1")) 7 (Some "$root")))
    as (_ & Hev & Heff & _ & _);
    [reflexivity | reflexivity | reflexivity | reflexivity |].
  split; [exact Hev | exact Heff].
Defined.

(** C5, as stated, fails: without server support the reaction to [$reply1]
    is inserted into the timeline next to it (and announced as a new
    reply). *)
Lemma relations_never_inserted_fails : ~ relations_never_inserted.
Proof.
  intros H.
  destruct (H (exec (addEvent 1%nat false true) sample_world) 2%nat false true
              (mk_event "$reaction" (Some "@me:example.org")
                        (Some ("m.annotation", "$reply1")) 7 (Some "$root"))
              "m.annotation" "$reply1" eq_refl eq_refl (or_introl eq_refl))
    as (Hev & _).
  - vm_compute. left.
  - vm_compute in Hev. discriminate Hev.
Qed.

Lemma relation_inserted_without_support :
  let w := exec (addEvent 2%nat false true) (exec (addEvent 1%nat false true) sample_world) in
  events w = [1%nat; 2%nat]
  /\ effects w = [DecryptEventIfNeeded 1%nat; EmitNewReply 1%nat;
                  DecryptEventIfNeeded 2%nat; EmitNewReply 2%nat].
Proof. split; reflexivity. Qed.

(** ** Deduplication of the private timeline *)

Lemma omap_ext_eq {A B : Type} (f g : A -> option B) (l : list A) :
  (forall x, f x = g x) -> omap f l = omap g l.
Proof.
  intros H. induction l as [|x l IH]; [reflexivity|].
  cbn. rewrite H, IH. reflexivity.
Qed.

Lemma timeline_ids_same (w1 w2 : World) :
  same_timeline w1 w2 -> timeline_ids w1 = timeline_ids w2.
Proof.
  intros (Hev & _ & H). unfold timeline_ids. rewrite Hev.
  apply omap_ext_eq. intros r. apply H.
Qed.

Lemma findEventById_None (eventId : string) (w : World) :
  bool_decide (is_Some (findEventById eventId w)) = false ->
  eventId ∉ timeline_ids w.
Proof.
  intros H. apply bool_decide_eq_false in H.
  apply timelineSet_findEventById_None.
  unfold findEventById in H.
  destruct (Thread.lastEvent (this w)) as [l|].
  - destruct (has_id (heap w) eventId l).
    + exfalso. apply H. eexists. reflexivity.
    + destruct (timelineSet_findEventById eventId w); [|reflexivity].
      exfalso. apply H. eexists. reflexivity.
  - destruct (timelineSet_findEventById eventId w); [|reflexivity].
    exfalso. apply H. eexists. reflexivity.
Qed.

Lemma findEventById_Some (eventId : string) (w : World) :
  eventId ∈ timeline_ids w ->
  bool_decide (is_Some (findEventById eventId w)) = true.
Proof.
  intros Hin. apply bool_decide_eq_true.
  unfold findEventById.
  destruct (Thread.lastEvent (this w)) as [l|];
    [destruct (has_id (heap w) eventId l); [eexists; reflexivity|]|];
    (destruct (timelineSet_findEventById eventId w) as [r|] eqn:Hf;
     [eexists; reflexivity|];
     apply timelineSet_findEventById_None in Hf; contradiction).
Qed.

Lemma timeline_ids_inserted (w : World) (event : ref) (toStartOfTimeline : bool)
    (e : MatrixEvent.t) :
  heap w !! event = Some e ->
  timeline_ids (inserted event toStartOfTimeline w) =
  if toStartOfTimeline then MatrixEvent.getId e :: timeline_ids w
  else timeline_ids w ++ [MatrixEvent.getId e].
Proof.
  intros He. unfold timeline_ids, inserted, events. wsimpl.
  cbn [Thread.timelineSet set_timelineSet].
  destruct toStartOfTimeline; simpl.
  - rewrite He. reflexivity.
  - rewrite omap_app. simpl. rewrite He. reflexivity.
Qed.

Lemma NoDup_addEventToTimeline (event : ref) (toStartOfTimeline : bool) :
  preserves (fun w => NoDup (timeline_ids w)) (addEventToTimeline event toStartOfTimeline).
Proof.
  intros w Hw. unfold exec.
  destruct (heap w !! event) as [e|] eqn:He.
  - rewrite (run_addEventToTimeline _ _ _ _ He). cbn [fst].
    destruct (bool_decide _) eqn:Hfound; [exact Hw|].
    apply findEventById_None in Hfound.
    rewrite (timeline_ids_inserted _ _ _ _ He).
    destruct toStartOfTimeline.
    + apply NoDup_cons. split; assumption.
    + apply NoDup_app. split; [assumption|]. split.
      * intros x Hx Hx'. apply list_elem_of_singleton in Hx'. subst x. contradiction.
      * apply NoDup_singleton.
  - unfold addEventToTimeline. rewrite (bind_deref_None _ _ _ He). exact Hw.
Qed.

Lemma NoDup_addEvent (event : ref) (toStartOfTimeline emit : bool) :
  preserves (fun w => NoDup (timeline_ids w)) (addEvent event toStartOfTimeline emit).
Proof.
  unfold addEvent. preserve;
    try assumption; try apply NoDup_addEventToTimeline.
  rewrite (timeline_ids_same _ w); [assumption | apply same_timeline_setThread].
Qed.

Lemma events_addEvent_known (w : World) (event : ref) (toStartOfTimeline emit : bool)
    (e : MatrixEvent.t) :
  heap w !! event = Some e ->
  MatrixEvent.getId e ∈ timeline_ids w ->
  events (exec (addEvent event toStartOfTimeline emit) w) = events w.
Proof.
  intros He Hin. apply findEventById_Some in Hin.
  addEvent_start He.
  destruct (negb _ && same_user _ _); mrun; wsimpl;
    (destruct (FeatureSupport.truthy _); cbn [negb];
     [ destruct (negb toStartOfTimeline && _);
       [ mrun | destruct (_ || _); mcases; reflexivity ]
     | mrun ]);
    erewrite bind_addEventToTimeline by (apply lookup_setThread, He);
    rewrite getId_setThread;
    same_view; rewrite Hin; mcases; reflexivity.
Qed.

(** C8: through every sequence of [addEvent] calls the private timeline
    holds at most one entry per event identifier, and an [addEvent] of an
    event whose identifier occurs in the timeline leaves the timeline as it
    was. *)
Theorem timeline_deduplicated :
  (forall (calls : list (ref * bool * bool)) (w : World),
      NoDup (timeline_ids w) ->
      NoDup (timeline_ids
               (run (map (fun c => AddEvent c.1.1 c.1.2 c.2) calls) w)))
  /\ (forall (w : World) (event : ref) (toStartOfTimeline emit : bool)
             (e : MatrixEvent.t),
      heap w !! event = Some e ->
      MatrixEvent.getId e ∈ timeline_ids w ->
      events (exec (addEvent event toStartOfTimeline emit) w) = events w).
Proof.
  split.
  - intros calls. unfold run.
    induction calls as [|[[event toStart] emit] calls IH]; intros w Hw; simpl.
    + exact Hw.
    + apply IH. apply NoDup_addEvent. exact Hw.
  - apply events_addEvent_known.
Qed.

Lemma timeline_deduplicated_witness :
  NoDup (timeline_ids
           (run (map (fun c => AddEvent c.1.1 c.1.2 c.2)
                     [(1%nat, false, true); (3%nat, false, true);
                      (1%nat, true, true); (3%nat, false, false)])
                sample_world))
  /\ events (exec (addEvent 1%nat true true)
                  (exec (addEvent 1%nat false true) sample_world))
     = events (exec (addEvent 1%nat false true) sample_world).
Proof.
  destruct timeline_deduplicated as [Hnodup Hsame].
  split.
  - apply Hnodup. vm_compute. apply NoDup_nil_2.
  - apply (Hsame _ 1%nat true true
             (MatrixEvent.setThread (Some "$root")
                (mk_event "$reply1" (Some "@bob:example.org")
                          (Some ("m.thread", "$root")) 5 (Some "$root")))).
    + reflexivity.
    + vm_compute. left.
Defined.

(** ** Dissolution of a thread *)

Lemma bind_forEach_update {B : Type} (l : list ref) (f g : MatrixEvent.t -> MatrixEvent.t)
    (k : unit -> M B) (w : World) :
  (forEach l (fun r => update r f ;; update r g) ≫= k) w =
  k tt (with_heap (fun h => foldl (fun h r => alter g r (alter f r h)) h l) w).
Proof.
  revert w. induction l as [|r l IH]; intros w; simpl.
  - mrun. destruct w; reflexivity.
  - mrun. rewrite IH. reflexivity.
Qed.

Lemma disassociate_disassociated (name : string) (e : MatrixEvent.t) :
  disassociated name (disassociate name e).
Proof.
  split; [reflexivity|].
  unfold MatrixEvent.getServerAggregatedRelation. simpl. apply lookup_delete_eq.
Qed.

Lemma disassociate_keeps (name : string) (e : MatrixEvent.t) :
  disassociated name e -> disassociated name (disassociate name e).
Proof. intros _. apply disassociate_disassociated. Qed.

Lemma disassociate_getId (name : string) (e : MatrixEvent.t) :
  MatrixEvent.getId (disassociate name e) = MatrixEvent.getId e.
Proof. reflexivity. Qed.

(** The loop over the thread's events: every event object keeps its
    identifier, an event of the list ends up disassociated, and an event
    that was disassociated stays so. *)
Lemma foldl_disassociate (name : string) (l : list ref) (h : gmap ref MatrixEvent.t)
    (r : ref) (e : MatrixEvent.t) :
  h !! r = Some e ->
  exists e',
    foldl (fun h r => alter (MatrixEvent.setThread None) r
                        (alter (MatrixEvent.deleteRelation name) r h)) h l !! r = Some e'
    /\ MatrixEvent.getId e' = MatrixEvent.getId e
    /\ (r ∈ l \/ disassociated name e -> disassociated name e').
Proof.
  revert h e. induction l as [|a l IH]; intros h e He; simpl.
  - exists e. split; [exact He | split; [reflexivity|]].
    intros [Hin | Hd]; [|exact Hd]. apply elem_of_nil in Hin. contradiction.
  - destruct (decide (a = r)) as [->|Hne].
    + destruct (IH (alter (MatrixEvent.setThread None) r
                      (alter (MatrixEvent.deleteRelation name) r h))
                   (disassociate name e)) as (e' & He' & Hid & Hd).
      { rewrite !lookup_alter_eq, He. reflexivity. }
      exists e'. split; [exact He' | split; [exact Hid|]].
      intros _. apply Hd. right. apply disassociate_disassociated.
    + destruct (IH (alter (MatrixEvent.setThread None) a
                      (alter (MatrixEvent.deleteRelation name) a h)) e)
        as (e' & He' & Hid & Hd).
      { rewrite !lookup_alter_ne by exact Hne. exact He. }
      exists e'. split; [exact He' | split; [exact Hid|]].
      intros [Hin | Hdis]; apply Hd; [left | right; exact Hdis].
      apply elem_of_cons in Hin as [->|Hin]; [contradiction | exact Hin].
Qed.

Lemma room_findEvent_Some (eventId : string) (w : World) (r : ref) :
  room_findEvent eventId w = Some r ->
  r ∈ Room.liveTimeline (room w)
  /\ exists e, heap w !! r = Some e /\ MatrixEvent.getId e = eventId.
Proof.
  intros H. apply find_some in H as [Hin Hid].
  split; [apply list_elem_of_In, Hin | apply has_id_true, Hid].
Qed.

(** Every event object keeps its identifier through the loop, and no
    object appears or disappears. *)
Lemma foldl_disassociate_getId (name : string) (l : list ref) (h : gmap ref MatrixEvent.t)
    (r : ref) :
  MatrixEvent.getId <$>
    foldl (fun h r => alter (MatrixEvent.setThread None) r
                        (alter (MatrixEvent.deleteRelation name) r h)) h l !! r
  = MatrixEvent.getId <$> h !! r.
Proof.
  revert h. induction l as [|a l IH]; intros h; simpl; [reflexivity|].
  rewrite IH. destruct (decide (a = r)) as [->|Hne].
  - rewrite !lookup_alter_eq. destruct (h !! r); reflexivity.
  - rewrite !lookup_alter_ne by exact Hne. reflexivity.
Qed.

(** *** The room's live timeline *)

Lemma existsb_has_id (h : gmap ref MatrixEvent.t) (eventId : string) (l : list ref) :
  existsb (has_id h eventId) l = true <->
  eventId ∈ omap (fun r => MatrixEvent.getId <$> h !! r) l.
Proof.
  induction l as [|r l IH]; simpl.
  - split; [discriminate | intros H; apply elem_of_nil in H; contradiction].
  - destruct (has_id h eventId r) eqn:Hr; simpl.
    + apply has_id_true in Hr as (e & -> & <-). simpl.
      split; [intros _; left | reflexivity].
    + assert (MatrixEvent.getId <$> h !! r <> Some eventId) as Hne.
      { unfold has_id in Hr. apply bool_decide_eq_false in Hr. exact Hr. }
      rewrite IH. destruct (h !! r) as [e|]; simpl in *; [|reflexivity].
      rewrite elem_of_cons. split; [intros H; right; exact H|].
      intros [->|H]; [congruence | exact H].
Qed.

Lemma addLiveEvent_cases (h : gmap ref MatrixEvent.t) (live : list ref) (event : ref) :
  addLiveEvent h live event = live
  \/ exists e, h !! event = Some e
               /\ existsb (has_id h (MatrixEvent.getId e)) live = false
               /\ addLiveEvent h live event = live ++ [event].
Proof.
  unfold addLiveEvent. destruct (h !! event) as [e|]; simpl; [|left; reflexivity].
  destruct (existsb (has_id h (MatrixEvent.getId e)) live) eqn:Hex; [left; reflexivity|].
  right. exists e. repeat split. exact Hex.
Qed.

(** Live events only ever go to the end of the live timeline: what was
    there stays, in place, and what is added is taken from the events
    handed over, in their order. *)
Lemma addLiveEvents_extends (h : gmap ref MatrixEvent.t) (evs live : list ref) :
  exists added,
    foldl (addLiveEvent h) live evs = live ++ added /\ added `sublist_of` evs.
Proof.
  revert live. induction evs as [|a evs IH]; intros live; simpl.
  - exists []. rewrite app_nil_r. split; [reflexivity | constructor].
  - destruct (addLiveEvent_cases h live a) as [-> | (e & _ & _ & ->)].
    + destruct (IH live) as (added & -> & Hsub). exists added.
      split; [reflexivity | apply sublist_cons, Hsub].
    + destruct (IH (live ++ [a])) as (added & -> & Hsub). exists (a :: added).
      rewrite <- app_assoc. split; [reflexivity | apply sublist_skip, Hsub].
Qed.

(** Every event handed over is in the live timeline afterwards, under its
    identifier. *)
Lemma addLiveEvents_present (h : gmap ref MatrixEvent.t) (evs live : list ref)
    (r : ref) (e : MatrixEvent.t) :
  r ∈ evs -> h !! r = Some e ->
  MatrixEvent.getId e ∈
    omap (fun r => MatrixEvent.getId <$> h !! r) (foldl (addLiveEvent h) live evs).
Proof.
  intros Hin He. apply existsb_has_id.
  revert live. induction evs as [|a evs IH]; intros live.
  - apply elem_of_nil in Hin. contradiction.
  - simpl. apply elem_of_cons in Hin as [->|Hin]; [|apply IH; exact Hin].
    destruct (addLiveEvents_extends h evs (addLiveEvent h live a)) as (added & -> & _).
    rewrite existsb_app. apply orb_true_iff. left.
    unfold addLiveEvent. rewrite He. simpl.
    destruct (existsb (has_id h (MatrixEvent.getId e)) live) eqn:Hex; [exact Hex|].
    rewrite existsb_app, Hex. simpl. rewrite orb_false_r.
    apply has_id_true. exists e. split; [exact He | reflexivity].
Qed.

(** No identifier comes to occur twice in the live timeline. *)
Lemma addLiveEvents_NoDup (h : gmap ref MatrixEvent.t) (evs live : list ref) :
  NoDup (omap (fun r => MatrixEvent.getId <$> h !! r) live) ->
  NoDup (omap (fun r => MatrixEvent.getId <$> h !! r) (foldl (addLiveEvent h) live evs)).
Proof.
  revert live. induction evs as [|a evs IH]; intros live Hnd; simpl; [exact Hnd|].
  apply IH. destruct (addLiveEvent_cases h live a) as [-> | (e & He & Hex & ->)];
    [exact Hnd|].
  rewrite omap_app. simpl. rewrite He. simpl.
  apply NoDup_app. split; [exact Hnd|]. split; [|apply NoDup_singleton].
  intros x Hx Hx'. apply list_elem_of_singleton in Hx'. subst x.
  apply existsb_has_id in Hx. rewrite Hx in Hex. discriminate.
Qed.

(** The world a dissolving redaction leaves behind, component by
    component. *)
Lemma onRedaction_dissolve_run (w : World) (event : ref) (e : MatrixEvent.t) (roomEvent : ref) :
  heap w !! event = Some e ->
  MatrixEvent.threadRootId e = Some (Thread.id (this w)) ->
  Thread.replyCount (this w) = 1 ->
  room_findEvent (Thread.id (this w)) w = Some roomEvent ->
  let w' := exec (onRedaction event) w in
  let name := THREAD_RELATION_TYPE_name w in
  returns (onRedaction event) w = true
  /\ heap w' =
     foldl (fun h r => alter (MatrixEvent.setThread None) r
                         (alter (MatrixEvent.deleteRelation name) r h))
           (alter (MatrixEvent.deleteRelation name) roomEvent
              (alter (MatrixEvent.setThread None) roomEvent (heap w)))
           (events w)
  /\ this w' = set_rootEvent (Some roomEvent) (set_replyCount 0 (this w))
  /\ Room.threads (room w') = Room.threads (room w) ∖ {[Thread.id (this w)]}
  /\ Room.threadsTimelineSets (room w') =
     map (removeEvent (heap w') (Thread.id (this w))) (Room.threadsTimelineSets (room w))
  /\ Room.liveTimeline (room w') =
     foldl (addLiveEvent (heap w')) (Room.liveTimeline (room w)) (events w)
  /\ effects w' = effects w ++ [AddLiveEvents (events w);
                                EmitTimelineRefresh (Room.liveTimeline (room w'));
                                EmitUpdate]
  /\ statics w' = statics w
  /\ client w' = client w.
Proof.
  intros He Hroot Hcount Hfind.
  unfold returns, exec, onRedaction. rewrite (bind_deref _ _ _ _ He). mrun.
  rewrite Hroot, bool_decide_eq_true_2 by reflexivity. mrun. wsimpl.
  cbn [Thread.replyCount set_replyCount]. rewrite Hcount.
  change (1 - 1 =? 0) with true. mrun.
  change (room_findEvent _ (with_room _ (with_this _ w)))
    with (room_findEvent (Thread.id (this w)) w).
  rewrite Hfind. mrun. wsimpl.
  unfold room_addLiveEvents. rewrite bind_forEach_update. mrun.
  cbn [fst snd]. wsimpl.
  repeat split.
  - unfold set_rootEvent, set_replyCount. simpl. rewrite Hcount. reflexivity.
  - rewrite <- !app_assoc. reflexivity.
Qed.

(** The identifiers in the room's live timeline are read the same before
    and after the dissolution's writes to the event objects. *)
Lemma dissolved_getId (name : string) (roomEvent : ref) (l : list ref)
    (h : gmap ref MatrixEvent.t) (r : ref) :
  MatrixEvent.getId <$>
    foldl (fun h r => alter (MatrixEvent.setThread None) r
                        (alter (MatrixEvent.deleteRelation name) r h))
          (alter (MatrixEvent.deleteRelation name) roomEvent
             (alter (MatrixEvent.setThread None) roomEvent h)) l !! r
  = MatrixEvent.getId <$> h !! r.
Proof.
  rewrite foldl_disassociate_getId.
  destruct (decide (roomEvent = r)) as [->|Hne].
  - rewrite !lookup_alter_eq. destruct (h !! r); reflexivity.
  - rewrite !lookup_alter_ne by exact Hne. reflexivity.
Qed.

(** C1: when the counter is 1 and the redacted event's thread-root id is
    the thread's id, and the root event is found in the room's live
    timeline, [onRedaction] returns having removed the thread from the
    room's thread collection, cleared the root event's thread association
    and its bundled relation of the thread-relation type, cleared the same
    two on every event of the private timeline, and handed those events to
    the room as live events.  Afterwards the identifier of each of them is
    in the room's live timeline; what the live timeline held before is
    still there, in place, followed only by events of the private timeline
    in their order; and if no identifier occurred twice in the live
    timeline before, none does after. *)
Theorem onRedaction_dissolves
    (w : World) (event : ref) (e : MatrixEvent.t) (roomEvent : ref) :
  heap w !! event = Some e ->
  MatrixEvent.threadRootId e = Some (Thread.id (this w)) ->
  Thread.replyCount (this w) = 1 ->
  room_findEvent (Thread.id (this w)) w = Some roomEvent ->
  let w' := exec (onRedaction event) w in
  let name := THREAD_RELATION_TYPE_name w in
  returns (onRedaction event) w = true
  /\ (Thread.id (this w) ∉ Room.threads (room w'))
  /\ (exists root, (heap w' !! roomEvent = Some root
                    /\ MatrixEvent.getId root = Thread.id (this w)
                    /\ disassociated name root))
  /\ (forall (r : ref) (te : MatrixEvent.t),
        r ∈ events w -> heap w !! r = Some te ->
        exists te', (heap w' !! r = Some te'
                     /\ MatrixEvent.getId te' = MatrixEvent.getId te
                     /\ disassociated name te'))
  /\ AddLiveEvents (events w) ∈ effects w'
  /\ (forall (r : ref) (te : MatrixEvent.t),
        r ∈ events w -> heap w !! r = Some te ->
        MatrixEvent.getId te ∈ room_ids w')
  /\ (exists added, (Room.liveTimeline (room w') = Room.liveTimeline (room w) ++ added
                     /\ added `sublist_of` events w))
  /\ (NoDup (room_ids w) -> NoDup (room_ids w')).
Proof.
  intros He Hroot Hcount Hfind w' name.
  destruct (onRedaction_dissolve_run w event e roomEvent He Hroot Hcount Hfind)
    as (Hret & Hheap & _ & Hthreads & _ & Hlive & Heff & _).
  fold w' name in Hheap, Hthreads, Hlive, Heff.
  assert (forall r, MatrixEvent.getId <$> heap w' !! r = MatrixEvent.getId <$> heap w !! r)
    as Hids.
  { intros r. rewrite Hheap. apply dissolved_getId. }
  split; [exact Hret|].
  split.
  { rewrite Hthreads. apply not_elem_of_difference. right.
    apply elem_of_singleton. reflexivity. }
  split; [|split; [|split; [|split; [|split]]]].
  - apply room_findEvent_Some in Hfind as (_ & root & Hr & Hid).
    destruct (foldl_disassociate name (events w)
                (alter (MatrixEvent.deleteRelation name) roomEvent
                   (alter (MatrixEvent.setThread None) roomEvent (heap w)))
                roomEvent
                (MatrixEvent.deleteRelation name (MatrixEvent.setThread None root)))
      as (root' & Hr' & Hid' & Hd).
    { rewrite !lookup_alter_eq, Hr. reflexivity. }
    exists root'. rewrite Hheap. split; [exact Hr'|].
    split; [rewrite Hid'; exact Hid|].
    apply Hd. right. split; [reflexivity|].
    unfold MatrixEvent.getServerAggregatedRelation. simpl. apply lookup_delete_eq.
  - intros r te Hin Hr.
    assert (exists te0,
              alter (MatrixEvent.deleteRelation name) roomEvent
                (alter (MatrixEvent.setThread None) roomEvent (heap w)) !! r = Some te0
              /\ MatrixEvent.getId te0 = MatrixEvent.getId te) as (te0 & Hr0 & Hid0).
    { destruct (decide (roomEvent = r)) as [->|Hne].
      - rewrite !lookup_alter_eq, Hr. eexists. split; reflexivity.
      - rewrite !lookup_alter_ne by exact Hne. eauto. }
    destruct (foldl_disassociate name (events w) _ r te0 Hr0) as (te' & Hr' & Hid' & Hd).
    exists te'. rewrite Hheap. split; [exact Hr'|].
    split; [congruence|]. apply Hd. left. exact Hin.
  - rewrite Heff. apply elem_of_app. right. left.
  - intros r te Hin Hr.
    assert (exists te', heap w' !! r = Some te'
                        /\ MatrixEvent.getId te' = MatrixEvent.getId te)
      as (te' & Hr' & <-).
    { specialize (Hids r). rewrite Hr in Hids.
      destruct (heap w' !! r) as [te'|]; [|discriminate].
      injection Hids as Hid. eauto. }
    unfold room_ids. rewrite Hlive.
    apply addLiveEvents_present with (r := r); assumption.
  - rewrite Hlive. apply addLiveEvents_extends.
  - intros Hnd. unfold room_ids. rewrite Hlive.
    apply addLiveEvents_NoDup.
    rewrite (omap_ext_eq _ (fun r => MatrixEvent.getId <$> heap w !! r)) by exact Hids.
    exact Hnd.
Qed.

Lemma onRedaction_dissolves_witness :
  let w := run [AddEvent 0%nat false true; AddEvent 1%nat false true] sample_world in
  let w' := exec (onRedaction 1%nat) w in
  events w = [0%nat; 1%nat]
  /\ Room.liveTimeline (room w) = [0%nat]
  /\ ("$root" ∉ Room.threads (room w'))
  /\ ("$reply1" ∈ room_ids w')
  /\ Room.liveTimeline (room w') = [0%nat; 1%nat]
  /\ NoDup (room_ids w')
  /\ (MatrixEvent.thread <$> heap w' !! 1%nat) = Some None.
Proof.
  intros w w'. subst w'.
  destruct (onRedaction_dissolves w 1%nat
              (MatrixEvent.setThread (Some "$root")
                 (mk_event "$reply1" (Some "@bob:example.org")
                           (Some ("m.thread", "$root")) 5 (Some "$root")))
              0%nat)
    as (_ & Hgone & _ & Hevents & _ & Hpresent & _ & Hnd);
    [reflexivity | reflexivity | reflexivity | reflexivity |].
  split; [reflexivity|]. split; [reflexivity|].
  split; [exact Hgone|].
  split.
  { apply (Hpresent 1%nat
              (MatrixEvent.setThread (Some "$root")
                 (mk_event "$reply1" (Some "@bob:example.org")
                           (Some ("m.thread", "$root")) 5 (Some "$root"))));
      [right; left | reflexivity]. }
  split; [reflexivity|].
  split.
  { apply Hnd. repeat constructor. intros H. apply elem_of_nil in H. exact H. }
  destruct (Hevents 1%nat
              (MatrixEvent.setThread (Some "$root")
                 (mk_event "$reply1" (Some "@bob:example.org")
                           (Some ("m.thread", "$root")) 5 (Some "$root"))))
    as (te' & Hte' & _ & Hthread & _); [right; left | reflexivity |].
  unfold ref in *. rewrite Hte'. simpl. rewrite Hthread. reflexivity.
Defined.

(** * Further properties *)

(** ** [addEvent] in closed form *)

Lemma addEvent_run (w : World) (event : ref) (toStartOfTimeline emit : bool)
    (e : MatrixEvent.t) :
  heap w !! event = Some e ->
  addEvent event toStartOfTimeline emit w
  = (addEvent_world event toStartOfTimeline emit e w, inr tt).
Proof.
  intros He. unfold addEvent, addEvent_world.
  rewrite (bind_deref _ _ _ _ He). mrun.
  change (hasCurrentUserParticipated (with_heap _ w)) with (hasCurrentUserParticipated w).
  change (client (with_heap _ w)) with (client w).
  destruct (negb (hasCurrentUserParticipated w) && same_user _ _); mrun; wsimpl;
    same_view;
    (destruct (FeatureSupport.truthy (hasServerSideSupport (statics w))) eqn:Hs;
     cbn [negb];
     [ destruct (negb toStartOfTimeline && gt_undefined _ _);
       [ mrun | destruct (_ || _); [ mrun; reflexivity | mrun ] ]
     | mrun ]);
    try (erewrite bind_addEventToTimeline by (apply lookup_setThread, He);
         rewrite getId_setThread; same_view;
         destruct (bool_decide (is_Some (findEventById _ w))); mrun);
    unfold insert_unless, count_and_emit, counted; wsimpl;
    cbn [Thread.rootEvent set_currentUserParticipated inserted with_this set_timelineSet];
    change (THREAD_RELATION_TYPE_name (with_effects _ _)) with (THREAD_RELATION_TYPE_name w);
    change (THREAD_RELATION_TYPE_name (with_this _ _)) with (THREAD_RELATION_TYPE_name w);
    change (THREAD_RELATION_TYPE_name (with_heap _ _)) with (THREAD_RELATION_TYPE_name w);
    rewrite ?Hs; cbn [negb orb];
    destruct (_ && MatrixEvent.isRelation _ e); mrun; destruct emit; mrun; reflexivity.
Qed.

Lemma exec_addEvent (w : World) (event : ref) (toStartOfTimeline emit : bool)
    (e : MatrixEvent.t) :
  heap w !! event = Some e ->
  exec (addEvent event toStartOfTimeline emit) w
  = addEvent_world event toStartOfTimeline emit e w.
Proof. intros He. unfold exec. rewrite (addEvent_run _ _ _ _ _ He). reflexivity. Qed.

(** Splits the closed form on every condition of the method. *)
Ltac addEvent_world_cases :=
  unfold addEvent_world, count_and_emit, insert_unless, inserted;
  repeat match goal with
         | |- context [if ?b then _ else _] =>
             lazymatch b with
             | true => fail
             | false => fail
             | _ => destruct b eqn:?
             end
         end;
  wsimpl.

Lemma addEvent_world_heap (w : World) (event : ref) (toStartOfTimeline emit : bool)
    (e : MatrixEvent.t) :
  heap (addEvent_world event toStartOfTimeline emit e w)
  = alter (MatrixEvent.setThread (Some (Thread.id (this w)))) event (heap w).
Proof. addEvent_world_cases; reflexivity. Qed.

Lemma addEvent_world_statics (w : World) (event : ref) (toStartOfTimeline emit : bool)
    (e : MatrixEvent.t) :
  statics (addEvent_world event toStartOfTimeline emit e w) = statics w.
Proof. addEvent_world_cases; reflexivity. Qed.

(** X1: [addEvent] on an event object does not throw.  It sets the thread
    association of that object, whether or not the event then enters the
    timeline, and changes no other event object, nothing of the room or of
    the static members, and neither the thread's [rootEvent] nor its
    [lastEvent]. *)
Theorem addEvent_frame (w : World) (event : ref) (toStartOfTimeline emit : bool)
    (e : MatrixEvent.t) :
  heap w !! event = Some e ->
  let w' := exec (addEvent event toStartOfTimeline emit) w in
  returns (addEvent event toStartOfTimeline emit) w = true
  /\ heap w' !! event = Some (MatrixEvent.setThread (Some (Thread.id (this w))) e)
  /\ (forall r : ref, r <> event -> heap w' !! r = heap w !! r)
  /\ room w' = room w
  /\ statics w' = statics w
  /\ Thread.rootEvent (this w') = Thread.rootEvent (this w)
  /\ Thread.lastEvent (this w') = Thread.lastEvent (this w).
Proof.
  intros He w'. subst w'. unfold returns.
  rewrite (exec_addEvent _ _ _ _ _ He), (addEvent_run _ _ _ _ _ He). cbn [snd].
  pose proof (addEvent_world_heap w event toStartOfTimeline emit e) as Hheap.
  split; [reflexivity|].
  split; [rewrite Hheap, lookup_alter_eq, He; reflexivity|].
  split; [intros r Hr; rewrite Hheap, lookup_alter_ne by congruence; reflexivity|].
  repeat split; addEvent_world_cases; reflexivity.
Qed.

Lemma addEvent_frame_witness :
  let w' := exec (addEvent 1%nat true true) stable_world in
  (MatrixEvent.thread <$> heap w' !! 1%nat) = Some (Some "$root")
  /\ events w' = []
  /\ room w' = room stable_world.
Proof.
  intros w'. subst w'.
  destruct (addEvent_frame stable_world 1%nat true true
              (mk_event "$reply1" (Some "@bob:example.org")
                        (Some ("m.thread", "$root")) 5 (Some "$root")))
    as (_ & Hheap & _ & Hroom & _); [reflexivity|].
  unfold ref in *. rewrite Hheap. split; [reflexivity|]. split; [reflexivity | exact Hroom].
Defined.

(** ** The counter and the notifications of [addEvent] *)

(** X2: what [addEvent] does to the reply counter.  Without server support
    it adds one for every event bearing the thread relation, whether or not
    the event enters the timeline; with server support and a known root
    event it leaves the counter alone; with server support and no root
    event it adds one for an event bearing the thread relation, unless the
    call ends in the annotation and replacement branch. *)
Theorem addEvent_replyCount (w : World) (event : ref) (toStartOfTimeline emit : bool)
    (e : MatrixEvent.t) :
  heap w !! event = Some e ->
  let reply := if MatrixEvent.isRelation (THREAD_RELATION_TYPE_name w) e then 1 else 0 in
  Thread.replyCount (this (exec (addEvent event toStartOfTimeline emit) w)) =
  if negb (FeatureSupport.truthy (hasServerSideSupport (statics w))) then
    Thread.replyCount (this w) + reply
  else if bool_decide (is_Some (Thread.rootEvent (this w))) then
    Thread.replyCount (this w)
  else if negb toStartOfTimeline
          && gt_undefined (MatrixEvent.localTimestamp e) (lastReply_localTimestamp w) then
    Thread.replyCount (this w) + reply
  else if MatrixEvent.isRelation RelationType.Annotation e
          || MatrixEvent.isRelation RelationType.Replace e then
    Thread.replyCount (this w)
  else Thread.replyCount (this w) + reply.
Proof.
  intros He reply. subst reply. rewrite (exec_addEvent _ _ _ _ _ He).
  unfold addEvent_world, counted, count_and_emit, insert_unless, inserted.
  destruct (FeatureSupport.truthy _); cbn [negb orb andb];
    destruct (bool_decide (is_Some (Thread.rootEvent (this w)))); cbn [negb orb andb];
    repeat match goal with
           | |- context [if ?b then _ else _] =>
               lazymatch b with
               | true => fail
               | false => fail
               | _ => destruct b eqn:?
               end
           end;
    wsimpl; cbn [Thread.replyCount set_replyCount set_timelineSet
                 set_currentUserParticipated];
    lia.
Qed.

Lemma addEvent_replyCount_witness :
  Thread.replyCount (this (exec (addEvent 1%nat false true) sample_world)) = 1
  /\ Thread.replyCount (this (exec (addEvent 1%nat false true) stable_world)) = 0.
Proof.
  split.
  - rewrite (addEvent_replyCount sample_world 1%nat false true
               (mk_event "$reply1" (Some "@bob:example.org")
                         (Some ("m.thread", "$root")) 5 (Some "$root")));
      reflexivity.
  - rewrite (addEvent_replyCount stable_world 1%nat false true
               (mk_event "$reply1" (Some "@bob:example.org")
                         (Some ("m.thread", "$root")) 5 (Some "$root")));
      reflexivity.
Defined.

Lemma filter_snoc {A : Type} (f : A -> bool) (l : list A) (x : A) :
  List.filter f (l ++ [x]) = List.filter f l ++ (if f x then [x] else []).
Proof. rewrite List.filter_app. reflexivity. Qed.

(** X3: the notifications of [addEvent].  It never emits [Thread.update].
    It emits [Thread.newReply] for the event, once and as the last thing it
    does, exactly when [emit] is set and the call does not end in the
    annotation and replacement branch: also when the event was known and
    did not enter the timeline. *)
Theorem addEvent_notifications (w : World) (event : ref) (toStartOfTimeline emit : bool)
    (e : MatrixEvent.t) :
  heap w !! event = Some e ->
  let w' := exec (addEvent event toStartOfTimeline emit) w in
  let aggregated :=
    FeatureSupport.truthy (hasServerSideSupport (statics w))
    && negb (negb toStartOfTimeline
             && gt_undefined (MatrixEvent.localTimestamp e) (lastReply_localTimestamp w))
    && (MatrixEvent.isRelation RelationType.Annotation e
        || MatrixEvent.isRelation RelationType.Replace e) in
  List.filter is_EmitUpdate (effects w') = List.filter is_EmitUpdate (effects w)
  /\ List.filter is_EmitNewReply (effects w')
     = List.filter is_EmitNewReply (effects w)
       ++ (if emit && negb aggregated then [EmitNewReply event] else [])
  /\ (emit && negb aggregated = true ->
      exists l, effects w' = l ++ [EmitNewReply event]).
Proof.
  intros He w' aggregated. subst w' aggregated.
  rewrite (exec_addEvent _ _ _ _ _ He).
  unfold addEvent_world, count_and_emit, insert_unless, inserted.
  destruct (FeatureSupport.truthy (hasServerSideSupport (statics w))),
           (negb toStartOfTimeline
            && gt_undefined (MatrixEvent.localTimestamp e) (lastReply_localTimestamp w)),
           (MatrixEvent.isRelation RelationType.Annotation e
            || MatrixEvent.isRelation RelationType.Replace e),
           emit;
    cbn [negb andb];
    repeat match goal with
           | |- context [if ?b then _ else _] =>
               lazymatch b with
               | true => fail
               | false => fail
               | _ => destruct b eqn:?
               end
           end;
    wsimpl; rewrite ?filter_snoc; cbn [is_EmitUpdate is_EmitNewReply];
    rewrite ?app_nil_r;
    (split; [reflexivity | split; [reflexivity |]]);
    first [ intros _; eexists; reflexivity | intros Hf; discriminate Hf ].
Qed.

Lemma addEvent_notifications_witness :
  let w := exec (addEvent 1%nat false true) sample_world in
  List.filter is_EmitNewReply (effects (exec (addEvent 1%nat false true) w))
  = [EmitNewReply 1%nat; EmitNewReply 1%nat]
  /\ events (exec (addEvent 1%nat false true) w) = [1%nat].
Proof.
  intros w. subst w.
  destruct (addEvent_notifications (exec (addEvent 1%nat false true) sample_world)
              1%nat false true
              (MatrixEvent.setThread (Some "$root")
                 (mk_event "$reply1" (Some "@bob:example.org")
                           (Some ("m.thread", "$root")) 5 (Some "$root"))))
    as (_ & Hnew & _); [reflexivity|].
  split; [rewrite Hnew; reflexivity | reflexivity].
Defined.

(** ** Insertion and lookup *)

Lemma has_id_setThread (h : gmap ref MatrixEvent.t) (r r' : ref) (t : option string)
    (eventId : string) :
  has_id (alter (MatrixEvent.setThread t) r h) eventId r' = has_id h eventId r'.
Proof.
  unfold has_id. rewrite lookup_alter.
  case_decide; [subst r'|]; destruct (h !! r); reflexivity.
Qed.

Lemma find_snoc_None {A : Type} (f : A -> bool) (l : list A) (x : A) :
  List.find f l = None -> List.find f (l ++ [x]) = if f x then Some x else None.
Proof.
  induction l as [|y l IH]; simpl; [reflexivity|].
  destruct (f y); [discriminate | exact IH].
Qed.

Lemma findEventById_None_timelineSet (eventId : string) (w : World) :
  findEventById eventId w = None -> timelineSet_findEventById eventId w = None.
Proof.
  unfold findEventById. destruct (Thread.lastEvent (this w)) as [l|]; [|tauto].
  destruct (has_id (heap w) eventId l); [discriminate | tauto].
Qed.

Lemma same_timeline_replyCount (w1 w2 : World) (f : Thread.t -> Z) :
  same_timeline w1 w2 ->
  same_timeline (with_this (fun t => set_replyCount (f t) t) w1) w2.
Proof. intros H. exact H. Qed.

#[local] Hint Resolve same_timeline_replyCount : timeline.

Lemma addEvent_unknown_inserted (w : World) (event : ref) (toStartOfTimeline emit : bool)
    (e : MatrixEvent.t) :
  heap w !! event = Some e ->
  FeatureSupport.truthy (hasServerSideSupport (statics w)) = false ->
  findEventById (MatrixEvent.getId e) w = None ->
  let w' := exec (addEvent event toStartOfTimeline emit) w in
  events w' = (if toStartOfTimeline then event :: events w else events w ++ [event])
  /\ timelineSet_findEventById (MatrixEvent.getId e) w' = Some event.
Proof.
  intros He Hs Hunknown w'.
  subst w'. rewrite (exec_addEvent _ _ _ _ _ He).
  pose proof (findEventById_None_timelineSet _ _ Hunknown) as Hfind.
  unfold timelineSet_findEventById in *.
  assert (has_id (heap w) (MatrixEvent.getId e) event = true) as Hid
    by (apply has_id_true; eauto).
  unfold addEvent_world. rewrite Hs, Hunknown. cbn [negb].
  rewrite bool_decide_eq_false_2 by (intros [x Hx]; discriminate Hx).
  unfold count_and_emit, insert_unless, inserted, events in *.
  repeat match goal with
         | |- context [if ?b then _ else _] =>
             lazymatch b with
             | true => fail
             | false => fail
             | toStartOfTimeline => fail
             | _ => destruct b eqn:?
             end
         end;
    wsimpl; cbn [Thread.timelineSet set_timelineSet set_replyCount
                 set_currentUserParticipated];
    (split; [reflexivity|]);
    rewrite (find_ext_eq _ (has_id (heap w) (MatrixEvent.getId e)))
      by (intros r; apply has_id_setThread);
    (destruct toStartOfTimeline;
     [ simpl; rewrite Hid; reflexivity
     | rewrite (find_snoc_None _ _ _ Hfind), Hid; reflexivity ]).
Qed.

(** X4: without server support, an event that [addEvent] was given can be
    looked up afterwards: [findEventById] on its identifier succeeds.  When
    the identifier was unknown before, the event went to the requested end
    of the timeline, and the timeline set's lookup and [has] find it. *)
Theorem addEvent_then_lookup (w : World) (event : ref) (toStartOfTimeline emit : bool)
    (e : MatrixEvent.t) :
  heap w !! event = Some e ->
  FeatureSupport.truthy (hasServerSideSupport (statics w)) = false ->
  let w' := exec (addEvent event toStartOfTimeline emit) w in
  is_Some (findEventById (MatrixEvent.getId e) w')
  /\ (findEventById (MatrixEvent.getId e) w = None ->
      events w' = (if toStartOfTimeline then event :: events w else events w ++ [event])
      /\ timelineSet_findEventById (MatrixEvent.getId e) w' = Some event
      /\ has (MatrixEvent.getId e) w' = true).
Proof.
  intros He Hs w'.
  pose proof (addEvent_unknown_inserted w event toStartOfTimeline emit e He Hs) as Hnew.
  fold w' in Hnew.
  split.
  - destruct (findEventById (MatrixEvent.getId e) w) as [r|] eqn:Hk.
    + subst w'. rewrite (exec_addEvent _ _ _ _ _ He).
      assert (same_timeline (addEvent_world event toStartOfTimeline emit e w) w) as Hsame.
      { unfold addEvent_world. rewrite Hs, Hk. cbn [negb].
        rewrite bool_decide_eq_true_2 by eauto.
        unfold count_and_emit, insert_unless.
        repeat match goal with
               | |- context [if ?b then _ else _] =>
                   lazymatch b with
                   | true => fail
                   | false => fail
                   | _ => destruct b eqn:?
                   end
               end;
          eauto 10 with timeline. }
      rewrite (same_timeline_findEventById _ _ _ Hsame), Hk. eauto.
    + destruct (Hnew eq_refl) as [_ Hfound].
      unfold findEventById.
      destruct (Thread.lastEvent (this w')) as [l|];
        [destruct (has_id (heap w') (MatrixEvent.getId e) l); [eauto|]|];
        rewrite Hfound; eauto.
  - intros Hunknown. destruct (Hnew Hunknown) as [Hev Hfound].
    split; [exact Hev | split; [exact Hfound|]].
    unfold has. rewrite Hfound. apply bool_decide_eq_true. eauto.
Qed.

Lemma addEvent_then_lookup_witness :
  let w' := exec (addEvent 1%nat true true) sample_world in
  events w' = [1%nat] /\ has "$reply1" w' = true.
Proof.
  intros w'. subst w'.
  destruct (addEvent_then_lookup sample_world 1%nat true true
              (mk_event "$reply1" (Some "@bob:example.org")
                        (Some ("m.thread", "$root")) 5 (Some "$root")))
    as (_ & Hnew); [reflexivity | reflexivity |].
  destruct (Hnew eq_refl) as (Hev & _ & Hhas).
  split; [exact Hev | exact Hhas].
Defined.

Lemma addEvent_world_replyCount_unsupported (w : World) (event : ref)
    (toStartOfTimeline emit : bool) (e : MatrixEvent.t) :
  FeatureSupport.truthy (hasServerSideSupport (statics w)) = false ->
  MatrixEvent.isRelation (THREAD_RELATION_TYPE_name w) e = true ->
  Thread.replyCount (this (addEvent_world event toStartOfTimeline emit e w))
  = Thread.replyCount (this w) + 1.
Proof.
  intros Hs Hrel. unfold addEvent_world, counted. rewrite Hs, Hrel. cbn [negb orb andb].
  unfold count_and_emit, insert_unless, inserted.
  repeat match goal with
         | |- context [if ?b then _ else _] =>
             lazymatch b with
             | true => fail
             | false => fail
             | _ => destruct b eqn:?
             end
         end;
    reflexivity.
Qed.

(** X5: without server support the counter and the timeline part ways on a
    duplicate delivery.  A reply whose identifier is unknown, given to
    [addEvent] twice, is in the timeline once and is counted twice. *)
Theorem addEvent_duplicate_counts_twice
    (w : World) (event : ref) (toStart1 emit1 toStart2 emit2 : bool) (e : MatrixEvent.t) :
  heap w !! event = Some e ->
  FeatureSupport.truthy (hasServerSideSupport (statics w)) = false ->
  MatrixEvent.isRelation (THREAD_RELATION_TYPE_name w) e = true ->
  findEventById (MatrixEvent.getId e) w = None ->
  let w1 := exec (addEvent event toStart1 emit1) w in
  let w2 := exec (addEvent event toStart2 emit2) w1 in
  events w2 = (if toStart1 then event :: events w else events w ++ [event])
  /\ Thread.replyCount (this w2) = Thread.replyCount (this w) + 2.
Proof.
  intros He Hs Hrel Hunknown w1 w2.
  destruct (addEvent_unknown_inserted w event toStart1 emit1 e He Hs Hunknown)
    as [Hev Hfound].
  fold w1 in Hev, Hfound.
  assert (heap w1 !! event = Some (MatrixEvent.setThread (Some (Thread.id (this w))) e))
    as He1.
  { subst w1. rewrite (exec_addEvent _ _ _ _ _ He), addEvent_world_heap.
    rewrite lookup_alter_eq, He. reflexivity. }
  assert (statics w1 = statics w) as Hst.
  { subst w1. rewrite (exec_addEvent _ _ _ _ _ He). apply addEvent_world_statics. }
  split.
  - subst w2. rewrite (events_addEvent_known w1 event toStart2 emit2 _ He1); [exact Hev|].
    rewrite getId_setThread.
    destruct (decide (MatrixEvent.getId e ∈ timeline_ids w1)) as [Hin|Hout]; [exact Hin|].
    apply timelineSet_findEventById_None in Hout. congruence.
  - subst w2. rewrite (exec_addEvent _ _ _ _ _ He1).
    rewrite addEvent_world_replyCount_unsupported.
    + subst w1. rewrite (exec_addEvent _ _ _ _ _ He).
      rewrite addEvent_world_replyCount_unsupported by assumption. lia.
    + rewrite Hst. exact Hs.
    + unfold THREAD_RELATION_TYPE_name. rewrite Hst. exact Hrel.
Qed.

Lemma addEvent_duplicate_counts_twice_witness :
  let w2 := exec (addEvent 1%nat false true) (exec (addEvent 1%nat false true) sample_world) in
  events w2 = [1%nat] /\ Thread.replyCount (this w2) = 2.
Proof.
  apply (addEvent_duplicate_counts_twice sample_world 1%nat false true false true
           (mk_event "$reply1" (Some "@bob:example.org")
                     (Some ("m.thread", "$root")) 5 (Some "$root")));
    reflexivity.
Defined.

(** ** [addEvents] *)

Lemma forEach_addEvent_run (evs : list ref) (toStartOfTimeline : bool) (w : World) :
  Forall (fun r => is_Some (heap w !! r)) evs ->
  forEach evs (fun ev => addEvent ev toStartOfTimeline false) w
  = (run (map (fun ev => AddEvent ev toStartOfTimeline false) evs) w, inr tt).
Proof.
  revert w. induction evs as [|ev evs IH]; intros w Hall; [reflexivity|].
  apply Forall_cons in Hall as [[e He] Hall].
  change (forEach (ev :: evs) (fun ev => addEvent ev toStartOfTimeline false))
    with (addEvent ev toStartOfTimeline false
          ≫= fun _ => forEach evs (fun ev => addEvent ev toStartOfTimeline false)).
  unfold mbind, M_bind. rewrite (addEvent_run _ _ _ _ _ He).
  change (run (map (fun ev => AddEvent ev toStartOfTimeline false) (ev :: evs)) w)
    with (run (map (fun ev => AddEvent ev toStartOfTimeline false) evs)
              (exec (addEvent ev toStartOfTimeline false) w)).
  rewrite (exec_addEvent _ _ _ _ _ He). apply IH.
  eapply Forall_impl; [exact Hall|]. intros r [x Hx]. simpl.
  rewrite addEvent_world_heap, lookup_alter.
  case_decide; [subst r|]; rewrite Hx; eauto.
Qed.

(** X6: [addEvents] on event objects does not throw and leaves the world
    that the [addEvent] calls for its events, in the order given and with
    [emit] off, leave one after the other, followed by one
    [Thread.update]. *)
Theorem addEvents_as_addEvent_calls (w : World) (evs : list ref) (toStartOfTimeline : bool) :
  Forall (fun r => is_Some (heap w !! r)) evs ->
  returns (addEvents evs toStartOfTimeline) w = true
  /\ exec (addEvents evs toStartOfTimeline) w
     = with_effects (fun l => l ++ [EmitUpdate])
         (run (map (fun ev => AddEvent ev toStartOfTimeline false) evs) w).
Proof.
  intros Hall. unfold returns, exec, addEvents, mbind, M_bind.
  rewrite (forEach_addEvent_run _ _ _ Hall). split; reflexivity.
Qed.

Lemma addEvents_as_addEvent_calls_witness :
  events (exec (addEvents [1%nat; 4%nat; 1%nat] false) sample_world) = [1%nat; 4%nat]
  /\ effects (exec (addEvents [] true) sample_world) = [EmitUpdate].
Proof.
  destruct (addEvents_as_addEvent_calls sample_world [1%nat; 4%nat; 1%nat] false)
    as [_ H1].
  { repeat constructor; eexists; reflexivity. }
  destruct (addEvents_as_addEvent_calls sample_world [] true) as [_ H2].
  { constructor. }
  rewrite H1, H2. split; reflexivity.
Defined.

Lemma addEvent_quiet (ev : ref) (toStartOfTimeline : bool) (w : World) :
  let w' := exec (addEvent ev toStartOfTimeline false) w in
  List.filter is_EmitUpdate (effects w') = List.filter is_EmitUpdate (effects w)
  /\ List.filter is_EmitNewReply (effects w') = List.filter is_EmitNewReply (effects w).
Proof.
  intros w'. subst w'. destruct (heap w !! ev) as [e|] eqn:He.
  - rewrite (exec_addEvent _ _ _ _ _ He).
    unfold addEvent_world, count_and_emit, insert_unless, inserted.
    repeat match goal with
           | |- context [if ?b then _ else _] =>
               lazymatch b with
               | true => fail
               | false => fail
               | _ => destruct b eqn:?
               end
           end;
      wsimpl; rewrite ?filter_snoc; cbn [is_EmitUpdate is_EmitNewReply];
      rewrite ?app_nil_r; split; reflexivity.
  - unfold exec, addEvent. rewrite (bind_deref_None _ _ _ He). split; reflexivity.
Qed.

Lemma run_addEvent_quiet (evs : list ref) (toStartOfTimeline : bool) (w : World) :
  let w' := run (map (fun ev => AddEvent ev toStartOfTimeline false) evs) w in
  List.filter is_EmitUpdate (effects w') = List.filter is_EmitUpdate (effects w)
  /\ List.filter is_EmitNewReply (effects w') = List.filter is_EmitNewReply (effects w).
Proof.
  revert w. induction evs as [|ev evs IH]; intros w; [split; reflexivity|].
  change (run (map (fun ev => AddEvent ev toStartOfTimeline false) (ev :: evs)) w)
    with (run (map (fun ev => AddEvent ev toStartOfTimeline false) evs)
              (exec (addEvent ev toStartOfTimeline false) w)).
  destruct (IH (exec (addEvent ev toStartOfTimeline false) w)) as [Hu Hn].
  destruct (addEvent_quiet ev toStartOfTimeline w) as [Hu' Hn'].
  simpl in *. split; congruence.
Qed.

(** X7: [addEvents] batches its notifications.  However many event objects
    it is given, none included, it emits [Thread.update] once, after the
    events, and emits no [Thread.newReply]. *)
Theorem addEvents_notifications (w : World) (evs : list ref) (toStartOfTimeline : bool) :
  Forall (fun r => is_Some (heap w !! r)) evs ->
  let w' := exec (addEvents evs toStartOfTimeline) w in
  List.filter is_EmitUpdate (effects w') = List.filter is_EmitUpdate (effects w) ++ [EmitUpdate]
  /\ List.filter is_EmitNewReply (effects w') = List.filter is_EmitNewReply (effects w)
  /\ exists l, effects w' = l ++ [EmitUpdate].
Proof.
  intros Hall w'. subst w'.
  unfold exec, addEvents, mbind, M_bind.
  rewrite (forEach_addEvent_run _ _ _ Hall). cbn [fst effect modify]. wsimpl.
  destruct (run_addEvent_quiet evs toStartOfTimeline w) as [Hu Hn]. simpl in Hu, Hn.
  rewrite !filter_snoc, Hu, Hn. cbn [is_EmitUpdate is_EmitNewReply].
  rewrite app_nil_r. repeat split. eexists. reflexivity.
Qed.

Lemma addEvents_notifications_witness :
  List.filter is_EmitUpdate
    (effects (exec (addEvents [1%nat; 3%nat; 4%nat] false) sample_world)) = [EmitUpdate]
  /\ List.filter is_EmitNewReply
       (effects (exec (addEvents [1%nat; 3%nat; 4%nat] false) sample_world)) = [].
Proof.
  destruct (addEvents_notifications sample_world [1%nat; 3%nat; 4%nat] false)
    as (Hu & Hn & _).
  { repeat constructor; eexists; reflexivity. }
  split; [exact Hu | exact Hn].
Defined.

(** ** The private timeline only grows *)

Lemma sublist_alloc (L : list ref) (e : MatrixEvent.t) :
  preserves (fun w => L `sublist_of` events w) (alloc e).
Proof. intros w Hw. exact Hw. Qed.

Lemma sublist_addEvent (L : list ref) (event : ref) (toStartOfTimeline emit : bool) :
  preserves (fun w => L `sublist_of` events w) (addEvent event toStartOfTimeline emit).
Proof.
  unfold addEvent, addEventToTimeline, timelineSet_addEventToTimeline.
  preserve; try assumption;
    unfold events in *; wsimpl; cbn [Thread.timelineSet set_timelineSet].
  - destruct toStartOfTimeline;
      [apply sublist_cons; assumption | apply sublist_inserts_r; assumption].
  - apply sublist_inserts_r; assumption.
Qed.

Lemma sublist_initialiseThread (L : list ref) (res : ContextResponse) :
  preserves (fun w => L `sublist_of` events w) (initialiseThread res).
Proof.
  unfold initialiseThread, loadEvent.
  preserve; try assumption; apply sublist_alloc.
Qed.

Lemma sublist_call (L : list ref) (c : Call) :
  preserves (fun w => L `sublist_of` events w) (call c).
Proof.
  destruct c; simpl.
  - unfold setServerSideSupport. preserve. assumption.
  - apply sublist_addEvent.
  - unfold addEvents. preserve; try assumption. apply sublist_addEvent.
  - apply sublist_initialiseThread.
  - unfold onRedaction, room_addLiveEvents. preserve; assumption.
  - apply preserves_skip.
  - unfold onEcho. preserve; try assumption. apply sublist_initialiseThread.
  - apply preserves_throw.
Qed.

Lemma events_alloc (L : list ref) (e : MatrixEvent.t) :
  preserves (fun w => events w = L) (alloc e).
Proof. intros w Hw. exact Hw. Qed.

Lemma events_initialiseThread (L : list ref) (res : ContextResponse) :
  preserves (fun w => events w = L) (initialiseThread res).
Proof.
  unfold initialiseThread, loadEvent.
  preserve; try assumption; apply events_alloc.
Qed.

(** X8: no call takes an event out of the private timeline.  Through every
    sequence of calls the timeline the sequence started with stays a
    subsequence of the timeline, and every call other than [addEvent] and
    [addEvents] leaves the timeline as it is: a dissolving redaction does
    not empty it, and an initialisation does not put the bundled latest
    event into it. *)
Theorem timeline_only_grows :
  (forall (cs : list Call) (w : World), events w `sublist_of` events (run cs w))
  /\ (forall (c : Call) (w : World),
        adds_events c = false -> events (exec (call c) w) = events w).
Proof.
  split.
  - intros cs w.
    apply (preserves_run (fun w' => events w `sublist_of` events w'));
      [apply sublist_call | reflexivity].
  - intros c w Hc.
    assert (preserves (fun w' => events w' = events w) (call c)) as H;
      [|apply H; reflexivity].
    destruct c; simpl in Hc; try discriminate Hc; simpl.
    + unfold setServerSideSupport. preserve. assumption.
    + apply events_initialiseThread.
    + unfold onRedaction, room_addLiveEvents. preserve; assumption.
    + apply preserves_skip.
    + unfold onEcho. preserve; try assumption. apply events_initialiseThread.
    + apply preserves_throw.
Qed.

Lemma timeline_only_grows_witness :
  let w := exec (addEvent 1%nat false true) sample_world in
  events (exec (onRedaction 1%nat) w) = [1%nat]
  /\ events (exec (initialiseThread sample_response) w) = [1%nat].
Proof.
  destruct timeline_only_grows as [_ Hsame].
  split.
  - apply (Hsame (OnRedaction 1%nat)). reflexivity.
  - apply (Hsame (InitialiseThread sample_response)). reflexivity.
Defined.

(** ** Timestamps under server support *)

Lemma increasing_snoc (l : list Z) (t x : Z) :
  increasing (l ++ [t]) -> t < x -> increasing ((l ++ [t]) ++ [x]).
Proof.
  induction l as [|a l IH]; simpl; intros [Hall Hinc] Hlt.
  - split; [repeat constructor; exact Hlt | split; constructor].
  - split; [|apply IH; assumption].
    apply Forall_app. split; [exact Hall|].
    constructor; [|constructor].
    apply Forall_app in Hall as [_ Ht]. inversion Ht; subst. lia.
Qed.

Lemma timestamps_setThread (h : gmap ref MatrixEvent.t) (r : ref) (t : option string)
    (l : list ref) :
  omap (fun r' => MatrixEvent.localTimestamp <$> alter (MatrixEvent.setThread t) r h !! r') l
  = omap (fun r' => MatrixEvent.localTimestamp <$> h !! r') l.
Proof.
  apply omap_ext_eq. intros r'. rewrite lookup_alter.
  case_decide; [subst r'|]; destruct (h !! r); reflexivity.
Qed.

Lemma lastReply_localTimestamp_Some (w : World) (t : Z) :
  lastReply_localTimestamp w = Some t ->
  exists l, timeline_timestamps w = l ++ [t].
Proof.
  unfold lastReply_localTimestamp, lastReply, timeline_timestamps.
  generalize (events w). intros l1.
  induction l1 as [|r0 l0 _] using rev_ind; [discriminate|].
  rewrite rev_app_distr. simpl.
  destruct (heap w !! r0) as [e|] eqn:He; simpl; [|discriminate].
  intros [= <-]. exists (omap (fun r => MatrixEvent.localTimestamp <$> heap w !! r) l0).
  rewrite omap_app. simpl. rewrite He. reflexivity.
Qed.

Lemma addEvent_world_supported (w : World) (event : ref) (toStartOfTimeline emit : bool)
    (e : MatrixEvent.t) :
  heap w !! event = Some e ->
  FeatureSupport.truthy (hasServerSideSupport (statics w)) = true ->
  timeline_timestamps (addEvent_world event toStartOfTimeline emit e w) =
  if negb toStartOfTimeline
     && gt_undefined (MatrixEvent.localTimestamp e) (lastReply_localTimestamp w)
     && negb (bool_decide (is_Some (findEventById (MatrixEvent.getId e) w)))
  then timeline_timestamps w ++ [MatrixEvent.localTimestamp e]
  else timeline_timestamps w.
Proof.
  intros He Hs. unfold timeline_timestamps, events.
  rewrite addEvent_world_heap, timestamps_setThread.
  unfold addEvent_world. rewrite Hs. cbn [negb].
  destruct (negb toStartOfTimeline && gt_undefined _ _); cbn [andb];
    [destruct (bool_decide (is_Some (findEventById _ w))); cbn [negb]|];
    unfold count_and_emit, insert_unless, inserted;
    repeat match goal with
           | |- context [if ?b then _ else _] =>
               lazymatch b with
               | true => fail
               | false => fail
               | _ => destruct b eqn:?
               end
           end;
    wsimpl; cbn [Thread.timelineSet set_timelineSet set_replyCount
                 set_currentUserParticipated];
    rewrite ?omap_app; simpl; rewrite ?He; reflexivity.
Qed.

Lemma increasing_addEvent (event : ref) (toStartOfTimeline emit : bool) :
  preserves (fun w => FeatureSupport.truthy (hasServerSideSupport (statics w)) = true
                      /\ increasing (timeline_timestamps w))
            (addEvent event toStartOfTimeline emit).
Proof.
  intros w [Hs Hinc]. destruct (heap w !! event) as [e|] eqn:He.
  - rewrite (exec_addEvent _ _ _ _ _ He), addEvent_world_statics.
    split; [exact Hs|].
    rewrite (addEvent_world_supported _ _ _ _ _ He Hs).
    destruct (negb toStartOfTimeline) ; cbn [andb]; [|exact Hinc].
    destruct (gt_undefined _ _) eqn:Hgt; cbn [andb]; [|exact Hinc].
    destruct (negb _); [|exact Hinc].
    unfold gt_undefined in Hgt.
    destruct (lastReply_localTimestamp w) as [t|] eqn:Hlast; [|discriminate].
    apply lastReply_localTimestamp_Some in Hlast as [l Hl].
    rewrite Hl in *. apply increasing_snoc; [exact Hinc | lia].
  - unfold exec, addEvent. rewrite (bind_deref_None _ _ _ He). split; assumption.
Qed.

(** X9: with server support, [addEvent] keeps the private timeline in
    strictly increasing order of local timestamps: the order holds after
    every sequence of [addEvent] calls when it held before. *)
Theorem timeline_increasing_with_support (calls : list (ref * bool * bool)) (w : World) :
  FeatureSupport.truthy (hasServerSideSupport (statics w)) = true ->
  increasing (timeline_timestamps w) ->
  increasing (timeline_timestamps (run (map (fun c => AddEvent c.1.1 c.1.2 c.2) calls) w)).
Proof.
  intros Hs Hinc.
  assert (FeatureSupport.truthy (hasServerSideSupport (statics w)) = true
          /\ increasing (timeline_timestamps w)) as H by (split; assumption).
  clear Hs Hinc. revert w H. unfold run.
  induction calls as [|[[event toStart] emit] calls IH]; intros w H; simpl.
  - apply H.
  - apply IH. apply increasing_addEvent. exact H.
Qed.

Lemma timeline_increasing_with_support_witness :
  increasing (timeline_timestamps
                (run (map (fun c => AddEvent c.1.1 c.1.2 c.2)
                          [(3%nat, false, true); (4%nat, false, true); (5%nat, true, true)])
                     reconciled_world)).
Proof.
  apply timeline_increasing_with_support.
  - reflexivity.
  - vm_compute. repeat constructor.
Defined.

(** ** Redactions that do not dissolve *)

(** X10: [onRedaction] ignores a redacted event whose thread-root id is not
    the thread's id: it returns and the world is as before, without even a
    [Thread.update]. *)
Theorem onRedaction_other_thread (w : World) (event : ref) (e : MatrixEvent.t) :
  heap w !! event = Some e ->
  MatrixEvent.threadRootId e <> Some (Thread.id (this w)) ->
  returns (onRedaction event) w = true /\ exec (onRedaction event) w = w.
Proof.
  intros He Hroot. unfold returns, exec, onRedaction.
  rewrite (bind_deref _ _ _ _ He). mrun.
  rewrite bool_decide_eq_false_2 by exact Hroot. mrun. split; reflexivity.
Qed.

Lemma onRedaction_other_thread_witness :
  exec (onRedaction 0%nat) sample_world = sample_world.
Proof.
  apply (onRedaction_other_thread sample_world 0%nat
           (mk_event "$root" (Some "@alice:example.org") None 1 None));
    [reflexivity | discriminate].
Defined.

(** X11: when the redacted event is of the thread and the counter is not 1,
    [onRedaction] takes one off the counter, whatever its value, emits
    [Thread.update], and does nothing else: the thread stays in the room's
    collection and no event object, timeline or pointer changes. *)
Theorem onRedaction_decrements (w : World) (event : ref) (e : MatrixEvent.t) :
  heap w !! event = Some e ->
  MatrixEvent.threadRootId e = Some (Thread.id (this w)) ->
  Thread.replyCount (this w) <> 1 ->
  returns (onRedaction event) w = true
  /\ exec (onRedaction event) w
     = with_effects (fun l => l ++ [EmitUpdate])
         (with_this (set_replyCount (Thread.replyCount (this w) - 1)) w).
Proof.
  intros He Hroot Hcount. unfold returns, exec, onRedaction.
  rewrite (bind_deref _ _ _ _ He). mrun.
  rewrite Hroot, bool_decide_eq_true_2 by reflexivity. mrun. wsimpl.
  cbn [Thread.replyCount set_replyCount].
  assert ((Thread.replyCount (this w) - 1 =? 0) = false) as ->
    by (apply Z.eqb_neq; lia).
  mrun. split; reflexivity.
Qed.

Lemma onRedaction_decrements_witness :
  let w := exec (addEvents [1%nat; 3%nat] false) sample_world in
  Thread.replyCount (this (exec (onRedaction 3%nat) w)) = 1
  /\ room (exec (onRedaction 3%nat) w) = room w.
Proof.
  intros w. subst w.
  destruct (onRedaction_decrements (exec (addEvents [1%nat; 3%nat] false) sample_world)
              3%nat
              (MatrixEvent.setThread (Some "$root")
                 (mk_event "$reply2" (Some "@me:example.org")
                           (Some ("m.thread", "$root")) 10 (Some "$root"))))
    as [_ H]; [reflexivity | reflexivity | vm_compute; discriminate |].
  rewrite H. split; reflexivity.
Defined.

(** X12: when the counter reaches zero and the root event is not found in
    the room's live timeline, the dissolution stops half way: the thread is
    taken out of the room's thread collection and [Thread.update] is
    emitted, but no event object loses its thread association, the room's
    timelines are as before and nothing is handed to the room. *)
Theorem onRedaction_root_missing (w : World) (event : ref) (e : MatrixEvent.t) :
  heap w !! event = Some e ->
  MatrixEvent.threadRootId e = Some (Thread.id (this w)) ->
  Thread.replyCount (this w) = 1 ->
  room_findEvent (Thread.id (this w)) w = None ->
  returns (onRedaction event) w = true
  /\ exec (onRedaction event) w
     = with_effects (fun l => l ++ [EmitUpdate])
         (with_room (fun r => set_threads (Room.threads r ∖ {[Thread.id (this w)]}) r)
            (with_this (set_replyCount 0) w)).
Proof.
  intros He Hroot Hcount Hfind. unfold returns, exec, onRedaction.
  rewrite (bind_deref _ _ _ _ He). mrun.
  rewrite Hroot, bool_decide_eq_true_2 by reflexivity. mrun. wsimpl.
  cbn [Thread.replyCount set_replyCount]. rewrite Hcount.
  change (1 - 1 =? 0) with true. mrun.
  change (room_findEvent _ (with_room _ (with_this _ w)))
    with (room_findEvent (Thread.id (this w)) w).
  rewrite Hfind. mrun. wsimpl.
  unfold with_this, set_replyCount. wsimpl. rewrite Hcount. split; reflexivity.
Qed.

Lemma onRedaction_root_missing_witness :
  let w' := exec (onRedaction 1%nat) rootless_world in
  ("$root" ∉ Room.threads (room w'))
  /\ heap w' = heap rootless_world
  /\ Room.liveTimeline (room w') = [1%nat].
Proof.
  intros w'. subst w'.
  destruct (onRedaction_root_missing rootless_world 1%nat
              (MatrixEvent.setThread (Some "$root")
                 (mk_event "$reply1" (Some "@bob:example.org")
                           (Some ("m.thread", "$root")) 5 (Some "$root"))))
    as [_ H]; [reflexivity | reflexivity | reflexivity | reflexivity |].
  rewrite H. split; [|split; reflexivity].
  wsimpl. apply not_elem_of_difference. right. apply elem_of_singleton. reflexivity.
Defined.

(** ** [initialiseThread] *)

(** X13: when the transport rejects the context request, or answers
    without an event, [initialiseThread] throws (the rejection, or the
    error that says the homeserver is too old) and has written nothing.
    Any number of such failed initialisations in a row leaves the world as
    it was, so that a later attempt starts from the same world. *)
Theorem initialiseThread_fetch_fails (w : World) :
  initialiseThread RequestFailed w = (w, inl Rejected)
  /\ initialiseThread (Response None) w
     = (w, inl (Error "'event' not in '/context' result - homeserver too old?"))
  /\ (forall failures : list ContextResponse,
        Forall (fun res => res = RequestFailed \/ res = Response None) failures ->
        run (map InitialiseThread failures) w = w).
Proof.
  split; [reflexivity|]. split; [reflexivity|].
  intros failures Hall. unfold run.
  induction Hall as [|res failures Hres _ IH]; [reflexivity|].
  simpl. destruct Hres as [-> | ->]; exact IH.
Qed.

Lemma initialiseThread_fetch_fails_witness :
  run (map InitialiseThread [RequestFailed; Response None; RequestFailed]) stable_world
  = stable_world.
Proof.
  destruct (initialiseThread_fetch_fails stable_world) as (_ & _ & H).
  apply H.
  constructor; [left; reflexivity|].
  constructor; [right; reflexivity|].
  constructor; [left; reflexivity|].
  constructor.
Defined.

Lemma find_ext_in {A : Type} (f g : A -> bool) (l : list A) :
  (forall x, x ∈ l -> f x = g x) -> List.find f l = List.find g l.
Proof.
  intros H. induction l as [|x l IH]; simpl; [reflexivity|].
  rewrite (H x) by left. rewrite IH; [reflexivity|].
  intros y Hy. apply H. right. exact Hy.
Qed.

Lemma fresh_heap_ne (h : gmap ref MatrixEvent.t) (r : ref) :
  is_Some (h !! r) -> r <> fresh (dom h).
Proof.
  intros [e He] ->. rewrite lookup_fresh in He. discriminate.
Qed.

Lemma initialiseThread_written_lookup (ev : IEvent) (metadata : IThreadBundledRelationship)
    (w : World) (r : ref) :
  is_Some (heap w !! r) ->
  heap (initialiseThread_written ev metadata w) !! r = heap w !! r.
Proof.
  intros Hr. unfold initialiseThread_written. cbn [heap].
  set (r0 := fresh (dom (heap w))).
  set (h0 := alter _ r0 _).
  assert (r <> r0) as Hne0 by (apply fresh_heap_ne, Hr).
  assert (h0 !! r = heap w !! r) as Hh0.
  { unfold h0. rewrite lookup_alter_ne, lookup_insert_ne by congruence. reflexivity. }
  assert (r <> fresh (dom h0)) as Hne1 by (apply fresh_heap_ne; rewrite Hh0; exact Hr).
  rewrite lookup_insert_ne by congruence. exact Hh0.
Qed.

Lemma initialiseThread_written_findEvent (ev : IEvent)
    (metadata : IThreadBundledRelationship) (w : World) (eventId : string) :
  Forall (fun r => is_Some (heap w !! r)) (Room.liveTimeline (room w)) ->
  room_findEvent eventId (initialiseThread_replaced ev metadata w)
  = room_findEvent eventId w.
Proof.
  intros Hwf. unfold room_findEvent.
  change (Room.liveTimeline (room (initialiseThread_replaced ev metadata w)))
    with (Room.liveTimeline (room w)).
  change (heap (initialiseThread_replaced ev metadata w))
    with (heap (initialiseThread_written ev metadata w)).
  apply find_ext_in. intros r Hr. unfold has_id.
  rewrite initialiseThread_written_lookup; [reflexivity|].
  rewrite Forall_forall in Hwf. apply Hwf, Hr.
Qed.

(** Writes every world in record form. *)
Ltac wnorm :=
  unfold with_effects, with_heap, with_this, with_room, with_statics;
  cbn [statics heap this room client effects].

(** The three ways [initialiseThread] ends once it has found the
    metadata. *)
Lemma initialiseThread_metadata_run (w : World) (ev : IEvent)
    (metadata : IThreadBundledRelationship) :
  MatrixEvent.getServerAggregatedRelation
    (THREAD_RELATION_TYPE_name w) (MatrixClient.getEventMapper (client w) ev)
  = Some metadata ->
  initialiseThread (Response (Some ev)) w =
  if negb (global_event (statics w)) then
    (initialiseThread_written ev metadata w, inl ReferenceError)
  else
    match room_findEvent (Thread.id (this w)) (initialiseThread_replaced ev metadata w) with
    | Some roomEvent => (initialiseThread_spliced ev metadata roomEvent w, inr tt)
    | None => (initialiseThread_replaced ev metadata w, inl TypeError)
    end.
Proof.
  intros Hmeta.
  unfold initialiseThread_spliced, initialiseThread_replaced, initialiseThread_written.
  unfold initialiseThread, loadEvent.
  rewrite bind_gets. rewrite bind_assoc, bind_gets. rewrite bind_assoc, bind_alloc.
  rewrite bind_assoc, bind_effect. rewrite bind_ret.
  rewrite bind_effect, bind_gets, bind_update, bind_gets.
  erewrite bind_deref.
  2:{ cbn [heap with_heap with_effects]. rewrite lookup_alter_eq, lookup_insert_eq.
      reflexivity. }
  change (THREAD_RELATION_TYPE_name (with_heap _ _)) with (THREAD_RELATION_TYPE_name w).
  cbn [fmap option_fmap option_map].
  unfold MatrixEvent.getServerAggregatedRelation in *.
  cbn [MatrixEvent.event MatrixEvent.setThread].
  wnorm. rewrite Hmeta.
  rewrite bind_modify, bind_alloc, bind_effect, bind_modify, bind_modify.
  wnorm. cbv zeta.
  set (r0 := fresh (dom (heap w))) in *.
  set (h0 := alter _ r0 _) in *.
  set (r1 := fresh (dom h0)) in *.
  clearbody r1. clearbody h0. clearbody r0.
  rewrite bind_gets. wnorm.
  destruct (global_event (statics w)); cbn [negb].
  - rewrite bind_when_false, bind_modify. wnorm.
    rewrite bind_gets. wnorm.
    unfold room_findEvent. cbn [heap room Room.liveTimeline set_threadsTimelineSets].
    destruct (find _ _) as [roomEvent|].
    + mrun. wnorm. unfold events. cbn [this Thread.timelineSet set_rootEvent set_lastEvent
                                       set_replyCount room Room.liveTimeline
                                       set_threadsTimelineSets].
      rewrite <- !app_assoc. reflexivity.
    + mrun. wnorm. rewrite <- !app_assoc. reflexivity.
  - rewrite bind_when_true, bind_throw. rewrite <- !app_assoc. reflexivity.
Qed.

Lemma initialiseThread_metadata_this (w : World) (ev : IEvent)
    (metadata : IThreadBundledRelationship) :
  MatrixEvent.getServerAggregatedRelation
    (THREAD_RELATION_TYPE_name w) (MatrixClient.getEventMapper (client w) ev)
  = Some metadata ->
  this (exec (initialiseThread (Response (Some ev))) w)
  = this (initialiseThread_written ev metadata w).
Proof.
  intros Hmeta. unfold exec. rewrite (initialiseThread_metadata_run _ _ _ Hmeta).
  destruct (negb _); [reflexivity|].
  destruct (room_findEvent _ _); reflexivity.
Qed.

Lemma initialiseThread_written_root (ev : IEvent) (metadata : IThreadBundledRelationship)
    (w : World) :
  heap (initialiseThread_written ev metadata w) !! fresh (dom (heap w))
  = Some (MatrixEvent.setThread (Some (Thread.id (this w)))
            (MatrixClient.getEventMapper (client w) ev)).
Proof.
  unfold initialiseThread_written. cbn [heap]. cbv zeta.
  set (r0 := fresh (dom (heap w))).
  set (h0 := alter _ r0 _).
  assert (h0 !! r0 = Some (MatrixEvent.setThread (Some (Thread.id (this w)))
                             (MatrixClient.getEventMapper (client w) ev))) as H0.
  { unfold h0. rewrite lookup_alter_eq, lookup_insert_eq. reflexivity. }
  assert (r0 <> fresh (dom h0)) as Hne.
  { apply fresh_heap_ne. rewrite H0. eexists. reflexivity. }
  rewrite lookup_insert_ne by congruence. exact H0.
Qed.

(** However [initialiseThread] ends, the object [rootEvent] points at is
    associated with the thread and carries the mapped payload. *)
Lemma initialiseThread_metadata_root (w : World) (ev : IEvent)
    (metadata : IThreadBundledRelationship) :
  MatrixEvent.getServerAggregatedRelation
    (THREAD_RELATION_TYPE_name w) (MatrixClient.getEventMapper (client w) ev)
  = Some metadata ->
  exists root : MatrixEvent.t,
    heap (exec (initialiseThread (Response (Some ev))) w) !! fresh (dom (heap w)) = Some root
    /\ MatrixEvent.thread root = Some (Thread.id (this w))
    /\ MatrixEvent.event root = MatrixEvent.event (MatrixClient.getEventMapper (client w) ev).
Proof.
  intros Hmeta. unfold exec. rewrite (initialiseThread_metadata_run _ _ _ Hmeta).
  pose proof (initialiseThread_written_root ev metadata w) as Hroot.
  destruct (negb _); cbn [fst].
  { eexists. split; [exact Hroot | split; reflexivity]. }
  destruct (room_findEvent _ _) as [roomEvent|]; cbn [fst].
  - unfold initialiseThread_spliced. cbn [heap]. cbv zeta.
    change (heap (initialiseThread_replaced ev metadata w))
      with (heap (initialiseThread_written ev metadata w)).
    set (r0 := fresh (dom (heap w))) in *.
    destruct (decide (roomEvent = r0)) as [->|Hne].
    + rewrite !lookup_alter_eq, Hroot. eexists. split; [reflexivity | split; reflexivity].
    + rewrite !lookup_alter_ne by exact Hne.
      eexists. split; [exact Hroot | split; reflexivity].
  - change (heap (initialiseThread_replaced ev metadata w))
      with (heap (initialiseThread_written ev metadata w)).
    eexists. split; [exact Hroot | split; reflexivity].
Qed.

(** X14: when the mapped root event bundles thread metadata,
    [initialiseThread] has, however it ends, set the counter to the
    bundled count and set both [rootEvent] and [lastEvent]; the object
    [rootEvent] points at is associated with the thread and bundles that
    metadata; the private timeline and the participation flag are as
    before. *)
Theorem initialiseThread_with_metadata (w : World) (ev : IEvent)
    (metadata : IThreadBundledRelationship) :
  MatrixEvent.getServerAggregatedRelation
    (THREAD_RELATION_TYPE_name w) (MatrixClient.getEventMapper (client w) ev)
  = Some metadata ->
  let w' := exec (initialiseThread (Response (Some ev))) w in
  Thread.replyCount (this w') = count metadata
  /\ (exists (r0 r1 : ref) (root : MatrixEvent.t),
        Thread.rootEvent (this w') = Some r0
        /\ Thread.lastEvent (this w') = Some r1
        /\ heap w' !! r0 = Some root
        /\ MatrixEvent.thread root = Some (Thread.id (this w))
        /\ MatrixEvent.getServerAggregatedRelation (THREAD_RELATION_TYPE_name w) root
           = Some metadata)
  /\ events w' = events w
  /\ hasCurrentUserParticipated w' = hasCurrentUserParticipated w.
Proof.
  intros Hmeta w'.
  destruct (initialiseThread_metadata_root w ev metadata Hmeta)
    as (root & Hroot & Hthread & Hpayload).
  fold w' in Hroot.
  assert (this w' = this (initialiseThread_written ev metadata w)) as Hthis
    by apply (initialiseThread_metadata_this _ _ _ Hmeta).
  unfold events, hasCurrentUserParticipated. rewrite Hthis.
  unfold initialiseThread_written. cbn [this]. cbv zeta.
  set (r0 := fresh (dom (heap w))) in *.
  set (h0 := alter _ r0 _).
  set (r1 := fresh (dom h0)).
  split; [reflexivity|]. split; [|split; reflexivity].
  exists r0, r1, root. split; [reflexivity|]. split; [reflexivity|].
  split; [exact Hroot|]. split; [exact Hthread|].
  unfold MatrixEvent.getServerAggregatedRelation in *. rewrite Hpayload. exact Hmeta.
Qed.

Lemma initialiseThread_with_metadata_witness :
  let w' := exec (initialiseThread sample_response) stable_world in
  Thread.replyCount (this w') = 3
  /\ is_Some (Thread.rootEvent (this w'))
  /\ is_Some (Thread.lastEvent (this w'))
  /\ events w' = [].
Proof.
  intros w'. subst w'.
  destruct (initialiseThread_with_metadata stable_world
              (mkIEvent "$root" (Some "@alice:example.org") None
                        {[ "m.thread" := (mkIEvent "$latest" (Some "@bob:example.org")
                                                   (Some ("m.thread", "$root")) ∅, 3) ]})
              (mkIEvent "$latest" (Some "@bob:example.org")
                        (Some ("m.thread", "$root")) ∅, 3))
    as (Hc & (r0 & r1 & _ & Hr0 & Hr1 & _) & Hev & _); [reflexivity|].
  split; [exact Hc|].
  split; [exists r0; exact Hr0|].
  split; [exists r1; exact Hr1 | exact Hev].
Defined.

(** X15: how [initialiseThread] ends once it has found the metadata, in a
    room whose live timeline holds event objects.  It throws a reference
    error when the host defines no global [event], and a type error when the
    root event is not in the room's live timeline; in both cases after the
    counter and the pointers were written.  It returns when the host
    defines the global and the root event is in the live timeline. *)
Theorem initialiseThread_outcome (w : World) (ev : IEvent)
    (metadata : IThreadBundledRelationship) :
  MatrixEvent.getServerAggregatedRelation
    (THREAD_RELATION_TYPE_name w) (MatrixClient.getEventMapper (client w) ev)
  = Some metadata ->
  Forall (fun r => is_Some (heap w !! r)) (Room.liveTimeline (room w)) ->
  snd (initialiseThread (Response (Some ev)) w) =
  if negb (global_event (statics w)) then inl ReferenceError
  else if bool_decide (is_Some (room_findEvent (Thread.id (this w)) w)) then inr tt
  else inl TypeError.
Proof.
  intros Hmeta Hwf. rewrite (initialiseThread_metadata_run _ _ _ Hmeta).
  rewrite (initialiseThread_written_findEvent _ _ _ _ Hwf).
  destruct (negb _); [reflexivity|].
  destruct (room_findEvent _ w) as [roomEvent|]; cbn [snd].
  - rewrite bool_decide_eq_true_2 by eauto. reflexivity.
  - rewrite bool_decide_eq_false_2; [reflexivity|]. intros [x Hx]. discriminate Hx.
Qed.

Lemma initialiseThread_outcome_witness :
  snd (initialiseThread sample_response rootless_world) = inl TypeError
  /\ Thread.replyCount (this (exec (initialiseThread sample_response) rootless_world)) = 3.
Proof.
  split.
  - unfold sample_response.
    rewrite (initialiseThread_outcome rootless_world
               (mkIEvent "$root" (Some "@alice:example.org") None
                         {[ "m.thread" := (mkIEvent "$latest" (Some "@bob:example.org")
                                                    (Some ("m.thread", "$root")) ∅, 3) ]})
               (mkIEvent "$latest" (Some "@bob:example.org")
                         (Some ("m.thread", "$root")) ∅, 3));
      [reflexivity | reflexivity |].
    repeat constructor. eexists. reflexivity.
  - reflexivity.
Defined.

(** X16: when [initialiseThread] returns, the root event of the room's live
    timeline is the same object at the same place, now carrying the fetched
    payload and the association with this thread; the live timeline itself
    is the same list of objects, with nothing inserted. *)
Theorem initialiseThread_splices_root (w : World) (ev : IEvent)
    (metadata : IThreadBundledRelationship) (roomEvent : ref) (old : MatrixEvent.t) :
  MatrixEvent.getServerAggregatedRelation
    (THREAD_RELATION_TYPE_name w) (MatrixClient.getEventMapper (client w) ev)
  = Some metadata ->
  Forall (fun r => is_Some (heap w !! r)) (Room.liveTimeline (room w)) ->
  global_event (statics w) = true ->
  room_findEvent (Thread.id (this w)) w = Some roomEvent ->
  heap w !! roomEvent = Some old ->
  let w' := exec (initialiseThread (Response (Some ev))) w in
  returns (initialiseThread (Response (Some ev))) w = true
  /\ Room.liveTimeline (room w') = Room.liveTimeline (room w)
  /\ heap w' !! roomEvent
     = Some (MatrixEvent.mk (MatrixEvent.event (MatrixClient.getEventMapper (client w) ev))
                            (MatrixEvent.localTimestamp old)
                            (MatrixEvent.threadRootId old)
                            (Some (Thread.id (this w)))).
Proof.
  intros Hmeta Hwf Hg Hfind Hold w'. subst w'. unfold returns, exec.
  rewrite (initialiseThread_metadata_run _ _ _ Hmeta), Hg. cbn [negb].
  rewrite (initialiseThread_written_findEvent _ _ _ _ Hwf), Hfind. cbn [fst snd].
  split; [reflexivity|]. split; [reflexivity|].
  unfold initialiseThread_spliced. cbn [heap]. cbv zeta.
  rewrite !lookup_alter_eq.
  change (heap (initialiseThread_replaced ev metadata w))
    with (heap (initialiseThread_written ev metadata w)).
  rewrite initialiseThread_written_lookup by eauto.
  rewrite Hold. reflexivity.
Qed.

Lemma initialiseThread_splices_root_witness :
  let w' := exec (initialiseThread sample_response) stable_world in
  Room.liveTimeline (room w') = [0%nat]
  /\ (MatrixEvent.thread <$> heap w' !! 0%nat) = Some (Some "$root").
Proof.
  intros w'. subst w'.
  destruct (initialiseThread_splices_root stable_world
              (mkIEvent "$root" (Some "@alice:example.org") None
                        {[ "m.thread" := (mkIEvent "$latest" (Some "@bob:example.org")
                                                   (Some ("m.thread", "$root")) ∅, 3) ]})
              (mkIEvent "$latest" (Some "@bob:example.org")
                        (Some ("m.thread", "$root")) ∅, 3)
              0%nat
              (mk_event "$root" (Some "@alice:example.org") None 1 None))
    as (_ & Hlive & Hheap);
    [reflexivity | repeat constructor; eexists; reflexivity
     | reflexivity | reflexivity | reflexivity |].
  unfold sample_response, ref in *. rewrite Hheap. split; [exact Hlive | reflexivity].
Defined.

(** ** [onEcho] *)

(** [onEcho] by its guard: nothing, or an initialisation followed by the
    notification. *)
Lemma onEcho_run (w : World) (event : ref) (res : ContextResponse) (e : MatrixEvent.t) :
  heap w !! event = Some e ->
  onEcho event res w =
  if bool_decide (MatrixEvent.threadRootId e = Some (Thread.id (this w)))
     && negb (bool_decide (Thread.lastEvent (this w) = Some event))
     && MatrixEvent.isRelation (THREAD_RELATION_TYPE_name w) e
  then match initialiseThread res w with
       | (w', inr _) => (with_effects (fun l => l ++ [EmitNewReply event]) w', inr tt)
       | (w', inl exn) => (w', inl exn)
       end
  else (w, inr tt).
Proof.
  intros He. unfold onEcho. rewrite (bind_deref _ _ _ _ He). mrun.
  destruct (_ && _ && _); [|reflexivity].
  rewrite run_when_true. unfold mbind, M_bind.
  destruct (initialiseThread res w) as [w' [exn|[]]]; reflexivity.
Qed.



(** ** The accessors *)

Lemma find_rev_split {A : Type} (f : A -> bool) (l : list A) :
  match List.find f (rev l) with
  | Some x => exists l1 l2, l = l1 ++ x :: l2 /\ f x = true
                            /\ Forall (fun y => f y = false) l2
  | None => Forall (fun y => f y = false) l
  end.
Proof.
  induction l as [|x l _] using rev_ind; simpl; [constructor|].
  rewrite rev_app_distr. simpl.
  destruct (f x) eqn:Hx.
  - exists l, []. repeat split; [exact Hx | constructor].
  - destruct (List.find f (rev l)) as [y|] eqn:Hf.
    + pose proof (find_some _ _ Hf) as [Hin Hy].
      clear Hin.
      assert (exists l1 l2, l = l1 ++ y :: l2 /\ f y = true
                            /\ Forall (fun z => f z = false) l2) as (l1 & l2 & -> & _ & Hall).
      { clear Hx x. revert y Hf Hy.
        induction l as [|z l IH] using rev_ind; simpl; [discriminate|].
        intros y. rewrite rev_app_distr. simpl.
        destruct (f z) eqn:Hz.
        - intros [= <-] _. exists l, []. repeat split; [exact Hz | constructor].
        - intros Hf Hy. destruct (IH y Hf Hy) as (l1 & l2 & -> & Hy' & Hall).
          exists l1, (l2 ++ [z]). rewrite <- app_assoc. repeat split; [exact Hy'|].
          apply Forall_app. split; [exact Hall | repeat constructor; exact Hz]. }
      exists l1, (l2 ++ [x]). rewrite <- app_assoc. repeat split; [exact Hy|].
      apply Forall_app. split; [exact Hall | repeat constructor; exact Hx].
    + assert (Forall (fun y => f y = false) l) as Hall.
      { apply Forall_forall. intros y Hy.
        apply (find_none _ _ Hf). apply in_rev. rewrite rev_involutive.
        apply list_elem_of_In. exact Hy. }
      apply Forall_app. split; [exact Hall | repeat constructor; exact Hx].
Qed.

(** X18: [lastReply] answers with the newest timeline entry that matches:
    an entry of the timeline that matches and has no matching entry after
    it.  It answers with nothing exactly when no entry matches, and with
    the default predicate it is the last entry of the timeline. *)
Theorem lastReply_newest_match (matches : ref -> bool) (w : World) :
  (forall r : ref,
      lastReply matches w = Some r ->
      exists older newer,
        events w = older ++ r :: newer
        /\ matches r = true
        /\ Forall (fun x => matches x = false) newer)
  /\ (lastReply matches w = None <-> Forall (fun x => matches x = false) (events w))
  /\ lastReply (fun _ => true) w = last (events w).
Proof.
  unfold lastReply. split; [|split].
  - intros r Hr. pose proof (find_rev_split matches (events w)) as H.
    rewrite Hr in H. exact H.
  - pose proof (find_rev_split matches (events w)) as H. split.
    + intros Hn. rewrite Hn in H. exact H.
    + intros Hall. destruct (List.find matches (rev (events w))) as [r|]; [|reflexivity].
      destruct H as (l1 & l2 & Heq & Hr & _).
      rewrite Forall_forall in Hall.
      rewrite Hall in Hr; [discriminate|]. rewrite Heq.
      apply elem_of_app. right. left.
  - induction (events w) as [|x l _] using rev_ind; [reflexivity|].
    rewrite rev_app_distr, last_snoc. reflexivity.
Qed.

Lemma lastReply_newest_match_witness :
  let w := exec (addEvents [1%nat; 2%nat; 3%nat] false) sample_world in
  lastReply (fun r => bool_decide (r <> 3%nat)) w = Some 2%nat
  /\ lastReply (fun _ => true) w = Some 3%nat
  /\ lastReply (fun _ => false) w = None.
Proof.
  intros w. destruct (lastReply_newest_match (fun _ => false) w) as (_ & Hnone & _).
  split; [reflexivity|]. split; [reflexivity|].
  apply Hnone. apply Forall_forall. reflexivity.
Defined.

(** X19: [replyToEvent] prefers the [lastEvent] to the timeline: it is the
    [lastEvent] whenever there is one, whatever the timeline holds, and the
    last timeline entry otherwise; it is undefined only for a thread with
    no [lastEvent] and an empty timeline. *)
Theorem replyToEvent_prefers_lastEvent (w : World) :
  (forall l : ref, Thread.lastEvent (this w) = Some l -> replyToEvent w = Some l)
  /\ (Thread.lastEvent (this w) = None -> replyToEvent w = last (events w))
  /\ (replyToEvent w = None <-> Thread.lastEvent (this w) = None /\ events w = []).
Proof.
  assert (lastReply (fun _ => true) w = last (events w)) as Hlast.
  { unfold lastReply. induction (events w) as [|x l _] using rev_ind; [reflexivity|].
    rewrite rev_app_distr, last_snoc. reflexivity. }
  unfold replyToEvent. rewrite Hlast.
  split; [|split].
  - intros l ->. reflexivity.
  - intros ->. reflexivity.
  - destruct (Thread.lastEvent (this w)) as [l|].
    + split; [discriminate | intros [H _]; discriminate H].
    + split.
      * intros H. split; [reflexivity|].
        destruct (events w) as [|x l] using rev_ind; [reflexivity|].
        rewrite last_snoc in H. discriminate H.
      * intros [_ ->]. reflexivity.
Qed.

Lemma replyToEvent_prefers_lastEvent_witness :
  replyToEvent reconciled_world = Some 7%nat
  /\ last (events reconciled_world) = Some 1%nat.
Proof.
  destruct (replyToEvent_prefers_lastEvent reconciled_world) as (H & _ & _).
  split; [apply H; reflexivity | reflexivity].
Defined.

(** X20: [findEventById] answers with an event object of the identifier
    asked for, which is the [lastEvent] or an entry of the timeline;
    whatever [has] knows [findEventById] finds; and for a thread without
    [lastEvent] the two lookups agree on every identifier. *)
Theorem findEventById_sound (w : World) (eventId : string) :
  (forall r : ref,
      findEventById eventId w = Some r ->
      (exists e, heap w !! r = Some e /\ MatrixEvent.getId e = eventId)
      /\ (Thread.lastEvent (this w) = Some r \/ r ∈ events w))
  /\ (has eventId w = true -> is_Some (findEventById eventId w))
  /\ (Thread.lastEvent (this w) = None ->
      has eventId w = bool_decide (is_Some (findEventById eventId w))).
Proof.
  assert (forall r, timelineSet_findEventById eventId w = Some r ->
                    (exists e, heap w !! r = Some e /\ MatrixEvent.getId e = eventId)
                    /\ r ∈ events w) as Hset.
  { intros r Hr. apply find_some in Hr as [Hin Hid].
    split; [apply has_id_true, Hid | apply list_elem_of_In, Hin]. }
  split; [|split].
  - intros r. unfold findEventById.
    destruct (Thread.lastEvent (this w)) as [l|].
    + destruct (has_id (heap w) eventId l) eqn:Hl.
      * intros [= <-]. split; [apply has_id_true, Hl | left; reflexivity].
      * intros Hr. destruct (Hset r Hr) as [He Hin]. split; [exact He | right; exact Hin].
    + intros Hr. destruct (Hset r Hr) as [He Hin]. split; [exact He | right; exact Hin].
  - unfold has, findEventById. intros H. apply bool_decide_eq_true in H.
    destruct (Thread.lastEvent (this w)) as [l|]; [|exact H].
    destruct (has_id (heap w) eventId l); [eauto | exact H].
  - intros Hl. unfold has, findEventById. rewrite Hl. reflexivity.
Qed.

Lemma findEventById_sound_witness :
  has "$reply1" reconciled_world = true
  /\ findEventById "$reply1" reconciled_world = Some 1%nat.
Proof.
  destruct (findEventById_sound reconciled_world "$reply1") as (_ & Hhas & _).
  split; [reflexivity|].
  destruct (Hhas eq_refl) as [r Hr]. reflexivity.
Defined.

(** ** The static members *)

Lemma setServerSideSupport_hasServerSideSupport (status : FeatureSupport.t) (w : World) :
  hasServerSideSupport (statics (exec (setServerSideSupport status) w)) = status.
Proof. reflexivity. Qed.

(** X21: the capability flag itself follows the last call.  After any
    sequence of [setServerSideSupport] calls [hasServerSideSupport] is the
    status of the last one, whatever went before; only the bias of the
    namespaced values is kept from earlier calls. *)
Theorem hasServerSideSupport_follows_last_call
    (w : World) (before : list FeatureSupport.t) (last : FeatureSupport.t) :
  hasServerSideSupport
    (statics (run (map SetServerSideSupport (before ++ [last])) w)) = last.
Proof.
  rewrite map_app, run_app. reflexivity.
Qed.

(** X22: from the values the module starts with, the capability discovery
    [setServerSideSupport(determineFeatureSupport(stable, unstable))]
    switches [addEvent] to the server-aggregated branches exactly when the
    server reports stable or unstable support, and leaves the stable
    relation type [m.thread] in use exactly when the server reports stable
    support; otherwise the unstable [io.element.thread] is used. *)
Theorem determineFeatureSupport_then_set (g stable unstable : bool) (w : World) :
  statics w = initial_statics g ->
  let w' := exec (setServerSideSupport (determineFeatureSupport stable unstable)) w in
  FeatureSupport.truthy (hasServerSideSupport (statics w')) = stable || unstable
  /\ THREAD_RELATION_TYPE_name w' = (if stable then "m.thread" else "io.element.thread")
  /\ ServerControlledNamespacedValue.name (FILTER_RELATED_BY_SENDERS (statics w'))
     = (if stable then "related_by_senders" else "io.element.relation_senders")
  /\ ServerControlledNamespacedValue.name (FILTER_RELATED_BY_REL_TYPES (statics w'))
     = (if stable then "related_by_rel_types" else "io.element.relation_types").
Proof.
  intros Hst w'. subst w'.
  unfold exec, setServerSideSupport, THREAD_RELATION_TYPE_name. cbn [fst modify].
  unfold with_statics. cbn [statics]. rewrite Hst.
  destruct stable, unstable; repeat split; reflexivity.
Qed.

Lemma determineFeatureSupport_then_set_witness :
  THREAD_RELATION_TYPE_name
    (exec (setServerSideSupport (determineFeatureSupport false true)) sample_world)
  = "io.element.thread".
Proof.
  destruct (determineFeatureSupport_then_set true false true sample_world eq_refl)
    as (_ & H & _).
  exact H.
Defined.

(** ** A new thread *)

(** X23: the constructor fails at once, having written nothing, when it
    is given no room.  Given one, it leaves a thread that knows no event:
    whatever the heap holds, both lookups fail on every identifier, there
    is no last reply and no event to reply to, the counter is zero and the
    user has not participated; the root event it was given is associated
    with the thread. *)
Theorem new_Thread_knows_nothing (w : World) (id : string) (rootEvent : option ref) :
  let w' := exec (construct id rootEvent true) w in
  construct id rootEvent false w
  = (w, inl (Error "element-web#22141: A thread requires a room in order to function"))
  /\ returns (construct id rootEvent true) w = true
  /\ (forall eventId : string,
        findEventById eventId w' = None /\ has eventId w' = false)
  /\ (forall matches : ref -> bool, lastReply matches w' = None)
  /\ replyToEvent w' = None
  /\ get_length w' = 0
  /\ hasCurrentUserParticipated w' = false
  /\ (forall (r : ref) (e : MatrixEvent.t),
        rootEvent = Some r -> heap w !! r = Some e ->
        heap w' !! r = Some (MatrixEvent.setThread (Some id) e)).
Proof.
  intros w'. subst w'. unfold returns, exec, construct, constructor.
  cbn [negb when]. split; [reflexivity|]. rewrite bind_skip.
  destruct rootEvent as [r|]; mrun; cbn [fst snd];
    (split; [reflexivity|]); (split; [intros eventId; split; reflexivity|]);
    (split; [intros matches; reflexivity|]);
    (split; [reflexivity|]); (split; [reflexivity|]); (split; [reflexivity|]).
  - intros r' e [= <-] He. unfold update, modify, with_this, with_heap.
    cbn [fst heap]. rewrite lookup_alter_eq, He. reflexivity.
  - intros r e Hr. discriminate Hr.
Qed.

Lemma new_Thread_knows_nothing_witness :
  (MatrixEvent.thread
     <$> heap (exec (construct "$root" (Some 0%nat) true) reconciled_world) !! 0%nat)
  = Some (Some "$root")
  /\ events (exec (construct "$root" (Some 0%nat) true) reconciled_world) = [].
Proof.
  destruct (new_Thread_knows_nothing reconciled_world "$root" (Some 0%nat))
    as (_ & _ & _ & _ & _ & _ & _ & Hroot).
  split; [|reflexivity].
  unfold ref in *.
  destruct (heap reconciled_world !! 0%nat) as [e|] eqn:He.
  - rewrite (Hroot 0%nat e eq_refl He). reflexivity.
  - vm_compute in He. discriminate He.
Defined.

(** ** The counter under [addEvent] *)

Lemma replyCount_addEvent (c : Z) (event : ref) (toStartOfTimeline emit : bool) :
  preserves (fun w => c <= Thread.replyCount (this w))
            (addEvent event toStartOfTimeline emit).
Proof.
  unfold addEvent, addEventToTimeline, timelineSet_addEventToTimeline.
  preserve; try assumption.
  wsimpl. cbn [Thread.replyCount set_replyCount]. lia.
Qed.

(** X24: [addEvent] and [addEvents] never lower the counter: through every
    sequence of such calls the counter stays at or above the value it
    started with.  Only a redaction or an initialisation can take it
    down. *)
Theorem replyCount_never_lowered_by_adding (cs : list Call) (w : World) :
  forallb adds_events cs = true ->
  Thread.replyCount (this w) <= Thread.replyCount (this (run cs w)).
Proof.
  revert w. unfold run. induction cs as [|c cs IH]; intros w Hcs; simpl; [lia|].
  simpl in Hcs. apply andb_true_iff in Hcs as [Hc Hcs].
  transitivity (Thread.replyCount (this (exec (call c) w))); [|apply IH, Hcs].
  assert (preserves (fun w' => Thread.replyCount (this w) <= Thread.replyCount (this w'))
                    (call c)) as H; [|apply H; lia].
  destruct c; simpl in Hc; try discriminate Hc; simpl.
  - apply replyCount_addEvent.
  - unfold addEvents. preserve; try assumption. apply replyCount_addEvent.
Qed.

Lemma replyCount_never_lowered_by_adding_witness :
  0 <= Thread.replyCount
         (this (run [AddEvents [1%nat; 2%nat] false; AddEvent 3%nat true true] sample_world)).
Proof.
  apply (replyCount_never_lowered_by_adding
           [AddEvents [1%nat; 2%nat] false; AddEvent 3%nat true true] sample_world).
  reflexivity.
Defined.

(** ** Deduplication beyond [addEvent] *)

Lemma timeline_ids_alter (w : World) (r : ref) (f : MatrixEvent.t -> MatrixEvent.t) :
  (forall e, MatrixEvent.getId (f e) = MatrixEvent.getId e) ->
  timeline_ids (with_heap (alter f r) w) = timeline_ids w.
Proof.
  intros Hf. unfold timeline_ids, events. wsimpl.
  apply omap_ext_eq. intros r'. rewrite lookup_alter.
  case_decide; [subst r'|]; [|reflexivity].
  destruct (heap w !! r) as [e|]; simpl; [rewrite Hf|]; reflexivity.
Qed.

Lemma NoDup_onRedaction (event : ref) :
  preserves (fun w => NoDup (timeline_ids w)) (onRedaction event).
Proof.
  unfold onRedaction, room_addLiveEvents.
  preserve; try assumption;
    rewrite timeline_ids_alter by reflexivity; assumption.
Qed.

(** X25: the private timeline stays free of duplicate identifiers through
    every sequence of calls that starts no initialisation: [addEvents] and
    redactions, dissolving ones included, keep what the claim on [addEvent]
    alone left open. *)
Theorem timeline_deduplicated_by_all (cs : list Call) (w : World) :
  forallb (fun c => negb (initialises c)) cs = true ->
  NoDup (timeline_ids w) ->
  NoDup (timeline_ids (run cs w)).
Proof.
  revert w. unfold run. induction cs as [|c cs IH]; intros w Hcs Hw; simpl; [exact Hw|].
  simpl in Hcs. apply andb_true_iff in Hcs as [Hc Hcs].
  apply IH; [exact Hcs|].
  assert (preserves (fun w' => NoDup (timeline_ids w')) (call c)) as H; [|apply H, Hw].
  destruct c; simpl in Hc; try discriminate Hc; simpl.
  - unfold setServerSideSupport. preserve. assumption.
  - apply NoDup_addEvent.
  - unfold addEvents. preserve; try assumption. apply NoDup_addEvent.
  - apply NoDup_onRedaction.
  - apply preserves_skip.
  - apply preserves_throw.
Qed.

Lemma timeline_deduplicated_by_all_witness :
  NoDup (timeline_ids
           (run [AddEvents [1%nat; 3%nat; 1%nat] false; OnRedaction 3%nat;
                 AddEvent 3%nat true true; OnRedaction 1%nat]
                sample_world)).
Proof.
  apply timeline_deduplicated_by_all; [reflexivity|].
  vm_compute. apply NoDup_nil_2.
Defined.

(** ** What a dissolving redaction leaves of the thread *)

Lemma removeEvent_ext (h1 h2 : gmap ref MatrixEvent.t) (eventId : string) (l : list ref) :
  (forall r, MatrixEvent.getId <$> h1 !! r = MatrixEvent.getId <$> h2 !! r) ->
  removeEvent h1 eventId l = removeEvent h2 eventId l.
Proof.
  intros H. unfold removeEvent. apply List.filter_ext. intros r.
  unfold has_id. rewrite H. reflexivity.
Qed.

Lemma removeEvent_removes (h : gmap ref MatrixEvent.t) (eventId : string) (l : list ref) :
  eventId ∉ omap (fun r => MatrixEvent.getId <$> h !! r) (removeEvent h eventId l).
Proof.
  apply find_has_id_None. unfold removeEvent.
  induction l as [|r l IH]; simpl; [reflexivity|].
  destruct (has_id h eventId r) eqn:Hr; simpl; [exact IH|].
  rewrite Hr. exact IH.
Qed.

(** X26: a dissolving redaction leaves the thread instance standing: its
    counter is zero, its [rootEvent] is the root event object of the room's
    live timeline, and its [lastEvent], timeline and participation flag are
    as before; the static members are untouched.  In the room, the thread's
    id leaves the thread collection, and every aggregate thread list loses
    the events that bear the thread's id and keeps its other entries, so
    that none holds that id afterwards.  The notifications recorded are the
    hand-over of the timeline's events to the room, then the room's
    timeline refresh with the live timeline as the hand-over left it, then
    [Thread.update]. *)
Theorem onRedaction_dissolved_thread
    (w : World) (event : ref) (e : MatrixEvent.t) (roomEvent : ref) :
  heap w !! event = Some e ->
  MatrixEvent.threadRootId e = Some (Thread.id (this w)) ->
  Thread.replyCount (this w) = 1 ->
  room_findEvent (Thread.id (this w)) w = Some roomEvent ->
  let w' := exec (onRedaction event) w in
  let id := Thread.id (this w) in
  this w' = set_rootEvent (Some roomEvent) (set_replyCount 0 (this w))
  /\ statics w' = statics w
  /\ Room.threads (room w') = Room.threads (room w) ∖ {[id]}
  /\ Room.threadsTimelineSets (room w')
     = map (removeEvent (heap w) id) (Room.threadsTimelineSets (room w))
  /\ Forall (fun set => id ∉ omap (fun r => MatrixEvent.getId <$> heap w' !! r) set)
            (Room.threadsTimelineSets (room w'))
  /\ effects w' = effects w ++ [AddLiveEvents (events w);
                                EmitTimelineRefresh (Room.liveTimeline (room w'));
                                EmitUpdate].
Proof.
  intros He Hroot Hcount Hfind w' id.
  destruct (onRedaction_dissolve_run w event e roomEvent He Hroot Hcount Hfind)
    as (_ & Hheap & Hthis & Hthreads & Hsets & _ & Heff & Hstatics & _).
  fold w' id in Hheap, Hthis, Hthreads, Hsets, Heff, Hstatics.
  assert (forall r, MatrixEvent.getId <$> heap w' !! r = MatrixEvent.getId <$> heap w !! r)
    as Hids.
  { intros r. rewrite Hheap. apply dissolved_getId. }
  split; [exact Hthis|]. split; [exact Hstatics|]. split; [exact Hthreads|].
  split; [|split; [|exact Heff]].
  - rewrite Hsets. apply map_ext. intros set. apply removeEvent_ext, Hids.
  - rewrite Hsets. apply Forall_map, Forall_forall. intros set _.
    apply removeEvent_removes.
Qed.

Lemma onRedaction_dissolved_thread_witness :
  let w := exec (addEvent 1%nat false true) sample_world in
  let w' := exec (onRedaction 1%nat) w in
  Thread.rootEvent (this w') = Some 0%nat
  /\ events w' = [1%nat]
  /\ Room.threads (room w) = {["$root"]}
  /\ Room.threads (room w') = {["$root"]} ∖ {["$root"]}
  /\ Room.threadsTimelineSets (room w) = [[0%nat]]
  /\ Room.threadsTimelineSets (room w') = [[]].
Proof.
  intros w w'. subst w w'.
  destruct (onRedaction_dissolved_thread
              (exec (addEvent 1%nat false true) sample_world) 1%nat
              (MatrixEvent.setThread (Some "$root")
                 (mk_event "$reply1" (Some "@bob:example.org")
                           (Some ("m.thread", "$root")) 5 (Some "$root")))
              0%nat)
    as (Hthis & _ & Hthreads & Hsets & _);
    [reflexivity | reflexivity | reflexivity | reflexivity |].
  unfold events. rewrite Hthis.
  split; [reflexivity|]. split; [reflexivity|]. split; [reflexivity|].
  split; [exact Hthreads|]. split; [reflexivity | exact Hsets].
Defined.
